(** * Webcam applications: capture page, save-image route, face detection page

    A shallow embedding of the three TypeScript units of the repository

    - [app/components/WebcamCapture.tsx]  (module [WebcamCapture]),
    - [app/api/save-image/route.ts]       (module [SaveImage]),
    - [app/components/FaceDetection.tsx]  (module [FaceDetection]),

    with what they share with the platform (modules [MediaStreams] for camera
    streams and [JSNumber] for binary64 numbers), followed by the properties
    proved about them (modules [WebcamCaptureProps], [SaveImageProps],
    [FaceDetectionProps]).

    Two smaller components are embedded the same way, the audio player of
    [app/components/SimpleRef.tsx] (module [AudioPlayer]) and the first,
    ref-only version of the webcam component (module [SimpleWebcam]); the
    modules [WebcamCaptureView], [SaveImageView], [CaptureToSave] and
    [FaceDetectionView] add what further properties of the three units are
    stated with, and these properties are proved at the end of the file.

    React components are embedded as event-driven state machines.  A component
    function is re-run on every render and its event handlers are closures of
    the render that created them; a handler is therefore embedded as a function
    that takes the state snapshot [snap] of that render next to the system
    state.  Buttons carry the handlers of the latest render, so a click passes
    the current state as snapshot.  An effect with an empty dependency array
    runs once, after the first render: it, and the cleanup it returns, are
    closures of the first render and keep seeing the initial state.  An [await]
    splits an async function into the part before it and a continuation that
    runs when the awaited promise settles, which is a separate event. *)

From Stdlib Require Import Bool List String Ascii NArith ZArith Lia.
From Stdlib Require Import Floats DecimalString.
Import ListNotations.

(* ================================================================== *)
(** * The browser's media streams *)
(* ================================================================== *)

Module MediaStreams.

(** [MediaStreamTrack.readyState]. *)
Inductive ReadyState := live | ended.

(** Every stream [getUserMedia] has handed out, by stream number; a stream is
    the list of its tracks. *)
Definition Media := list (list ReadyState).

(** A [MediaStream] value held by the program is a reference into [Media]. *)
Definition MediaStream := nat.

Definition is_live (t : ReadyState) : bool :=
  match t with live => true | ended => false end.

(** [stream.getTracks().forEach((track) => track.stop())] on the track list. *)
Definition stop_all (ts : list ReadyState) : list ReadyState :=
  map (fun _ => ended) ts.

(** The same, on stream [id] of the table. *)
Fixpoint stopTracks (id : MediaStream) (m : Media) : Media :=
  match m, id with
  | [], _ => []
  | ts :: m', O => stop_all ts :: m'
  | ts :: m', S i => ts :: stopTracks i m'
  end.

(** [MediaStream.active]: some track has not ended. *)
Definition active (ts : list ReadyState) : bool := existsb is_live ts.

(** The streams of the table that are still active. *)
Definition active_streams (m : Media) : nat :=
  List.length (filter active m).

End MediaStreams.

(* ================================================================== *)
(** * app/components/WebcamCapture.tsx *)
(* ================================================================== *)

Module WebcamCapture.
Export MediaStreams.

(** ** DOM elements and images *)

(** The frame the video element currently shows: [None] before the element has
    data, [Some n] for the n-th frame of its source. *)
Definition Frame := option nat.

Record HTMLVideoElement := {
  videoWidth : N;
  videoHeight : N;
  srcObject : option MediaStream;
  currentFrame : Frame
}.

Record HTMLCanvasElement := {
  width : N;
  height : N;
  (** what [getContext("2d")] returns is non-null *)
  context2d : bool;
  (** the frame drawn on the bitmap, [None] when blank *)
  bitmap : Frame
}.

(** A raster image: what a PNG data URL encodes. *)
Record Raster := {
  r_width : N;
  r_height : N;
  r_pixels : Frame
}.

(** The result of [canvas.toDataURL("image/png")]: the string ["data:,"] for a
    canvas without pixels, else a PNG data URL of the bitmap.  Both are
    non-empty strings, so both are truthy. *)
Inductive DataURL :=
| EmptyData
| PngData (r : Raster).

Definition toDataURL (c : HTMLCanvasElement) : DataURL :=
  if (width c =? 0)%N || (height c =? 0)%N then EmptyData
  else PngData {| r_width := width c; r_height := height c; r_pixels := bitmap c |}.

(** A freshly created [<video>] element. *)
Definition freshVideo : HTMLVideoElement :=
  {| videoWidth := 0; videoHeight := 0; srcObject := None; currentFrame := None |}.

(** The hidden [<canvas>] as created: the default 300 x 150 bitmap. *)
Definition freshCanvas : HTMLCanvasElement :=
  {| width := 300; height := 150; context2d := true; bitmap := None |}.

(** ** Component state: the four [useState] cells *)

Record State := {
  stream : option MediaStream;
  capturedImage : option DataURL;
  isSaving : bool;
  savedFileName : option string
}.

(** The state of the first render. *)
Definition initialState : State :=
  {| stream := None; capturedImage := None; isSaving := false; savedFileName := None |}.

(** What the persistence request comes back with.  The route answers
    [{success: true, fileName}] or [{success: false, error}]; [Threw] is a
    rejected [fetch] or a body that is not JSON. *)
Inductive SaveOutcome :=
| RespSuccess (fileName : string)
| RespFailure (error : string)
| Threw.

(** What the component does to the outside world. *)
Inductive Output :=
| ConsoleError (msg : string)
| GetUserMedia (w h : N)
| Fetch (url : string) (image : DataURL).

Inductive Phase := NotMounted | Mounted | Unmounted.

Record Sys := {
  phase : Phase;
  st : State;
  (** [videoRef.current] and [canvasRef.current] *)
  videoRef : option HTMLVideoElement;
  canvasRef : option HTMLCanvasElement;
  media : Media;
  (** [getUserMedia] promises not yet settled *)
  pendingMedia : nat;
  (** [fetch] requests not yet settled, oldest first *)
  inflight : list DataURL;
  outputs : list Output
}.

Definition initialSys : Sys :=
  {| phase := NotMounted; st := initialState; videoRef := None; canvasRef := None;
     media := []; pendingMedia := 0; inflight := []; outputs := [] |}.

(** The component after its first render and commit: the state cells hold
    their initial values, both elements exist, nothing is pending. *)
Definition mountedSys : Sys :=
  {| phase := Mounted; st := initialState; videoRef := Some freshVideo;
     canvasRef := Some freshCanvas; media := []; pendingMedia := 0; inflight := [];
     outputs := [] |}.

(** *** Field updates *)

Definition set_st (f : State -> State) (s : Sys) : Sys :=
  {| phase := phase s; st := f (st s); videoRef := videoRef s; canvasRef := canvasRef s;
     media := media s; pendingMedia := pendingMedia s; inflight := inflight s;
     outputs := outputs s |}.

Definition set_videoRef (v : option HTMLVideoElement) (s : Sys) : Sys :=
  {| phase := phase s; st := st s; videoRef := v; canvasRef := canvasRef s;
     media := media s; pendingMedia := pendingMedia s; inflight := inflight s;
     outputs := outputs s |}.

Definition set_canvasRef (c : option HTMLCanvasElement) (s : Sys) : Sys :=
  {| phase := phase s; st := st s; videoRef := videoRef s; canvasRef := c;
     media := media s; pendingMedia := pendingMedia s; inflight := inflight s;
     outputs := outputs s |}.

Definition set_media (m : Media) (s : Sys) : Sys :=
  {| phase := phase s; st := st s; videoRef := videoRef s; canvasRef := canvasRef s;
     media := m; pendingMedia := pendingMedia s; inflight := inflight s;
     outputs := outputs s |}.

Definition set_pendingMedia (n : nat) (s : Sys) : Sys :=
  {| phase := phase s; st := st s; videoRef := videoRef s; canvasRef := canvasRef s;
     media := media s; pendingMedia := n; inflight := inflight s;
     outputs := outputs s |}.

Definition set_inflight (l : list DataURL) (s : Sys) : Sys :=
  {| phase := phase s; st := st s; videoRef := videoRef s; canvasRef := canvasRef s;
     media := media s; pendingMedia := pendingMedia s; inflight := l;
     outputs := outputs s |}.

Definition set_phase (p : Phase) (s : Sys) : Sys :=
  {| phase := p; st := st s; videoRef := videoRef s; canvasRef := canvasRef s;
     media := media s; pendingMedia := pendingMedia s; inflight := inflight s;
     outputs := outputs s |}.

Definition output (o : Output) (s : Sys) : Sys :=
  {| phase := phase s; st := st s; videoRef := videoRef s; canvasRef := canvasRef s;
     media := media s; pendingMedia := pendingMedia s; inflight := inflight s;
     outputs := outputs s ++ [o] |}.

(** The four state setters.  A setter is applied whether or not the component
    is still mounted: after the unmount nothing reads the state any more. *)
Definition setStream (v : option MediaStream) (x : State) : State :=
  {| stream := v; capturedImage := capturedImage x; isSaving := isSaving x;
     savedFileName := savedFileName x |}.

Definition setCapturedImage (v : option DataURL) (x : State) : State :=
  {| stream := stream x; capturedImage := v; isSaving := isSaving x;
     savedFileName := savedFileName x |}.

Definition setIsSaving (v : bool) (x : State) : State :=
  {| stream := stream x; capturedImage := capturedImage x; isSaving := v;
     savedFileName := savedFileName x |}.

Definition setSavedFileName (v : option string) (x : State) : State :=
  {| stream := stream x; capturedImage := capturedImage x; isSaving := isSaving x;
     savedFileName := v |}.

(** ** Rendering *)

(** The JSX shows the [<video>] and the Take Photo button while
    [!capturedImage], and otherwise the [<img>] with the Retake and Save
    buttons. *)
Definition reviewMode (x : State) : bool :=
  match capturedImage x with Some _ => true | None => false end.

(** [disabled={isSaving || savedFileName !== null}] on the Save button. *)
Definition saveDisabled (x : State) : bool :=
  isSaving x || match savedFileName x with Some _ => true | None => false end.

(** The commit of a render: in review mode the [<video>] element is removed
    and [videoRef.current] becomes null; in camera mode an element is created
    when there is none. *)
Definition commit (s : Sys) : Sys :=
  match phase s with
  | Mounted =>
      if reviewMode (st s) then set_videoRef None s
      else match videoRef s with
           | Some _ => s
           | None => set_videoRef (Some freshVideo) s
           end
  | _ => s
  end.

(** ** startVideo *)

(** Up to the [await]: stop the tracks of the stream this render holds, then
    ask for the camera. *)
Definition startVideo (snap : State) (s : Sys) : Sys :=
  let s1 := match stream snap with
            | Some id => set_media (stopTracks id (media s)) s
            | None => s
            end in
  set_pendingMedia (S (pendingMedia s1)) (output (GetUserMedia 640 480) s1).

(** After the [await], the promise fulfilled with a new stream of [tracks]
    tracks: bind it to the video element and store it, when there is a video
    element. *)
Definition startVideo_fulfilled (tracks : nat) (s : Sys) : Sys :=
  let newStream := List.length (media s) in
  let s1 := set_media (media s ++ [repeat live tracks]) s in
  match videoRef s1 with
  | Some v =>
      set_st (setStream (Some newStream))
        (set_videoRef (Some {| videoWidth := videoWidth v; videoHeight := videoHeight v;
                               srcObject := Some newStream;
                               currentFrame := currentFrame v |}) s1)
  | None => s1
  end.

(** After the [await], the promise rejected: the [catch] block. *)
Definition startVideo_rejected (s : Sys) : Sys :=
  output (ConsoleError "Error accessing webcam:") s.

(** ** The mount effect: [useEffect(() => { startVideo(); return cleanup }, [])] *)

(** The cleanup the effect returns.  [snap] is the render whose closure it is. *)
Definition cleanup (snap : State) (s : Sys) : Sys :=
  match stream snap with
  | Some id => set_media (stopTracks id (media s)) s
  | None => s
  end.

(** ** capturePhoto *)

Definition capturePhoto (s : Sys) : Sys :=
  match videoRef s, canvasRef s with
  | Some video, Some canvas =>
      (* canvas.width = video.videoWidth; canvas.height = video.videoHeight:
         resizing resets the bitmap *)
      let canvas1 := {| width := videoWidth video; height := videoHeight video;
                        context2d := context2d canvas; bitmap := None |} in
      if context2d canvas1 then
        (* context.drawImage(video, 0, 0, canvas.width, canvas.height) *)
        let canvas2 := {| width := width canvas1; height := height canvas1;
                          context2d := context2d canvas1;
                          bitmap := currentFrame video |} in
        let imageDataUrl := toDataURL canvas2 in
        commit
          (set_st (setSavedFileName None)
             (set_st (setCapturedImage (Some imageDataUrl))
                (set_canvasRef (Some canvas2) s)))
      else set_canvasRef (Some canvas1) s
  | _, _ => s
  end.

(** ** savePhoto *)

(** Up to the [await fetch(...)]. *)
Definition savePhoto (snap : State) (s : Sys) : Sys :=
  match capturedImage snap with
  | None => s                                   (* if (!capturedImage) return *)
  | Some image =>
      set_inflight (inflight s ++ [image])
        (output (Fetch "/api/save-image" image)
           (set_st (setIsSaving true) s))
  end.

(** From the settled request to the end of the [finally] block. *)
Definition savePhoto_settled (o : SaveOutcome) (s : Sys) : Sys :=
  let s1 := match o with
            | RespSuccess fileName => set_st (setSavedFileName (Some fileName)) s
            | RespFailure _ => output (ConsoleError "Failed to save image") s
            | Threw => output (ConsoleError "Error saving image:") s
            end in
  set_st (setIsSaving false) s1.

(** ** retake *)

Definition retake (snap : State) (s : Sys) : Sys :=
  (* the render that follows the handler puts the [<video>] element back *)
  commit
    (startVideo snap
       (set_st (setSavedFileName None) (set_st (setCapturedImage None) s))).

(** ** Events *)

Inductive Event :=
| Mount
| Unmount
| StreamGranted (tracks : nat)      (* the oldest pending getUserMedia fulfils *)
| StreamDenied                      (* ... or rejects *)
| VideoFrame (w h : N) (n : nat)    (* the video element shows a new frame *)
| ClickTakePhoto
| ClickSave
| ClickRetake
| FetchSettled (o : SaveOutcome).   (* the oldest in-flight fetch settles *)

Definition is_mounted (s : Sys) : bool :=
  match phase s with Mounted => true | _ => false end.

Definition step (s : Sys) (e : Event) : Sys :=
  match e with
  | Mount =>
      match phase s with
      | NotMounted =>
          (* first render and commit, then the effect, a closure of that render *)
          startVideo initialState mountedSys
      | _ => s
      end
  | Unmount =>
      if is_mounted s then
        (* the elements go away, then the cleanup of the mount effect runs: the
           closure of the first render *)
        cleanup initialState
          (set_canvasRef None (set_videoRef None (set_phase Unmounted s)))
      else s
  | StreamGranted tracks =>
      match pendingMedia s with
      | O => s
      | S n => startVideo_fulfilled tracks (set_pendingMedia n s)
      end
  | StreamDenied =>
      match pendingMedia s with
      | O => s
      | S n => startVideo_rejected (set_pendingMedia n s)
      end
  | VideoFrame w h n =>
      match videoRef s with
      | Some v =>
          match srcObject v with
          | Some src =>
              set_videoRef (Some {| videoWidth := w; videoHeight := h;
                                    srcObject := Some src;
                                    currentFrame := Some n |}) s
          | None => s
          end
      | None => s
      end
  | ClickTakePhoto =>
      if is_mounted s && negb (reviewMode (st s)) then capturePhoto s else s
  | ClickSave =>
      if is_mounted s && reviewMode (st s) && negb (saveDisabled (st s))
      then savePhoto (st s) s else s
  | ClickRetake =>
      if is_mounted s && reviewMode (st s) then retake (st s) s else s
  | FetchSettled o =>
      match inflight s with
      | [] => s
      | _ :: rest => savePhoto_settled o (set_inflight rest s)
      end
  end.

Definition run_from (s : Sys) (evs : list Event) : Sys := fold_left step evs s.

Definition run (evs : list Event) : Sys := run_from initialSys evs.

(** ** The save protocol, and sample runs *)

(** The bookkeeping behind the Save button: a request is in flight exactly
    while [isSaving] is set, and no file name is shown meanwhile. *)
Definition save_inv (s : Sys) : Prop :=
  List.length (inflight s) = (if isSaving (st s) then 1 else 0)
  /\ (isSaving (st s) = true -> savedFileName (st s) = None).

(** A run that leaves a save in flight: mount, camera granted, a frame shown,
    photo taken, Save clicked. *)
Definition saving_run : list Event :=
  [Mount; StreamGranted 1; VideoFrame 640 480 7; ClickTakePhoto; ClickSave].

(** The state in which the photo of [saving_run] is taken. *)
Definition before_capture : Sys :=
  run [Mount; StreamGranted 1; VideoFrame 640 480 7].

End WebcamCapture.

(* ================================================================== *)
(** * app/api/save-image/route.ts *)
(* ================================================================== *)

Module SaveImage.
Import Strings.Byte.
Local Open Scope string_scope.

(** ** The data-URL prefix *)

(** The class [\w] of a regular expression without the unicode flag:
    [A-Za-z0-9_]. *)
Definition is_word_char (c : ascii) : bool :=
  let n := N_of_ascii c in
  ((48 <=? n) && (n <=? 57) || (65 <=? n) && (n <=? 90)
   || (97 <=? n) && (n <=? 122) || (n =? 95))%N.

(** What follows the literal [p] at the start of [s], when [s] starts with it. *)
Fixpoint strip_literal (p s : string) : option string :=
  match p with
  | EmptyString => Some s
  | String a p' =>
      match s with
      | String b s' => if Ascii.eqb a b then strip_literal p' s' else None
      | EmptyString => None
      end
  end.

(** What follows the longest run of word characters at the start of [s]. *)
Fixpoint skip_word (s : string) : string :=
  match s with
  | String c s' => if is_word_char c then skip_word s' else s
  | EmptyString => EmptyString
  end.

(** [image.replace(/^data:image\/\w+;base64,/, "")].  The pattern is anchored
    at the start and has no [g] flag, so at most the prefix is removed.  [\w+]
    is greedy; a shorter run would have to be followed by [;], which is no
    word character, so only the longest run can match. *)
Definition strip_data_url_prefix (image : string) : string :=
  match strip_literal "data:image/" image with
  | Some rest =>
      match rest with
      | String c _ =>
          if is_word_char c then
            match strip_literal ";base64," (skip_word rest) with
            | Some base64Data => base64Data
            | None => image
            end
          else image
      | EmptyString => image
      end
  | None => image
  end.

(** A string of word characters only. *)
Definition word_string (s : string) : bool :=
  forallb is_word_char (list_ascii_of_string s).

(** ** The file name *)

Definition hex_digit (n : N) : ascii :=
  nth (N.to_nat n) (list_ascii_of_string "0123456789abcdef") "0"%char.

Definition hex_of_byte (b : byte) : string :=
  String (hex_digit (to_N b / 16)) (String (hex_digit (to_N b mod 16)) EmptyString).

(** [buffer.toString("hex")]. *)
Fixpoint toString_hex (bs : list byte) : string :=
  match bs with
  | [] => EmptyString
  | b :: bs' => hex_of_byte b ++ toString_hex bs'
  end.


(** ** Request, response, file system *)

(** What [await req.json()] and the destructuring [const { image } = data]
    give: the body may fail to parse, and a parsed body may have no string
    under [image], in which case [image.replace] throws. *)
Inductive Body :=
| NotJson
| NoImageString
| Image (image : string).

Inductive ResponseJson :=
| Success (fileName : string)          (* { success: true, fileName } *)
| Failure (error : string).            (* { success: false, error } *)

Record Response := {
  status : nat;
  json : ResponseJson
}.

(** A path, as the list of its segments. *)
Definition Path := list string.

(** [path.join] of a path with names that hold no separator and are neither
    ["."] nor [".."]: the names are appended. *)
Definition join (p : Path) (names : list string) : Path := (p ++ names)%list.

Record Result := {
  response : Response;
  (** the calls of [writeFile] that succeeded: path and contents *)
  written : list (Path * list byte);
  (** the calls of [console.error] *)
  console : list string
}.

Section Runtime.

(** The Node runtime: [Buffer.from(_, "base64")] and [process.cwd()]. *)
Variable Buffer_from_base64 : string -> list byte.
Variable cwd : Path.

(** The [catch] block. *)
Definition failed : Result :=
  {| response := {| status := 500; json := Failure "Failed to save image" |};
     written := [];
     console := ["Error saving image:"] |}.

(** The handler.  [randomBytes] is what [crypto.randomBytes(16)] returns and
    [writeFile_ok] tells whether [writeFile] fulfils. *)
Definition POST (body : Body) (randomBytes : list byte) (writeFile_ok : bool) : Result :=
  match body with
  | NotJson => failed
  | NoImageString => failed
  | Image image =>
      let randomName := toString_hex randomBytes in
      let fileName := randomName ++ ".png" in
      let base64Data := strip_data_url_prefix image in
      let buffer := Buffer_from_base64 base64Data in
      let publicPath := join cwd ["public"; "captured-photos"] in
      if writeFile_ok then
        {| response := {| status := 200; json := Success fileName |};
           written := [(join publicPath [fileName], buffer)];
           console := [] |}
      else failed
  end.

End Runtime.

(** ** A base64 decoder to run the handler with *)

(** The value of a base64 digit; the URL-safe digits [-] and [_] count too. *)
Definition unbase64 (c : ascii) : option N :=
  let n := N_of_ascii c in
  if ((65 <=? n) && (n <=? 90))%N then Some (n - 65)%N
  else if ((97 <=? n) && (n <=? 122))%N then Some (n - 71)%N
  else if ((48 <=? n) && (n <=? 57))%N then Some (n + 4)%N
  else if ((n =? 43) || (n =? 45))%N then Some 62%N
  else if ((n =? 47) || (n =? 95))%N then Some 63%N
  else None.

(** The digits of a string up to its padding; other characters are skipped. *)
Fixpoint sextets (s : string) : list N :=
  match s with
  | EmptyString => []
  | String c s' =>
      if Ascii.eqb c "="%char then []
      else match unbase64 c with
           | Some v => v :: sextets s'
           | None => sextets s'
           end
  end.

Definition byte_of (n : N) : byte :=
  match of_N (n mod 256) with Some b => b | None => x00 end.

Fixpoint bytes_of_sextets (l : list N) : list byte :=
  match l with
  | a :: b :: c :: d :: rest =>
      byte_of (a * 4 + b / 16) :: byte_of (b * 16 + c / 4) :: byte_of (c * 64 + d)
        :: bytes_of_sextets rest
  | [a; b; c] => [byte_of (a * 4 + b / 16); byte_of (b * 16 + c / 4)]
  | [a; b] => [byte_of (a * 4 + b / 16)]
  | _ => []
  end.

(** A decoder that agrees with [Buffer.from(_, "base64")] on well-formed
    base64. *)
Definition decode_base64 (s : string) : list byte :=
  bytes_of_sextets (sextets s).

(** Sixteen bytes to name a file with. *)
Definition sample_bytes : list byte :=
  [xa1; xb2; xc3; xd4; xe5; xf6; xa7; xb8; x00; x01; x7f; x80; xff; x10; x0a; x9c].

End SaveImage.

(* ================================================================== *)
(** * JavaScript numbers *)
(* ================================================================== *)

Module JSNumber.
Local Open Scope string_scope.

(** A Number is an IEEE 754 binary64 value; arithmetic and comparison are
    those of [SpecFloat] at precision 53, [SF64mul] and [SFltb]. *)
Definition Number := spec_float.

(** The literal [100]. *)
Definition number_100 : Number := Eval vm_compute in Prim2SF 100%float.

(** Where [Math.round] lands: an integer (the sign of a zero is dropped, both
    zeros print as [0]), an infinity or NaN. *)
Inductive Rounded :=
| RNaN
| RInfinity (negative : bool)
| RInteger (z : Z).

(** [Math.round(x)]: the integer closest to [x], the larger one on a tie;
    that is, the floor of [x + 1/2] computed exactly. *)
Definition Math_round (x : Number) : Rounded :=
  match x with
  | S754_nan => RNaN
  | S754_infinity s => RInfinity s
  | S754_zero _ => RInteger 0
  | S754_finite s m e =>
      let n := if s then Z.neg m else Z.pos m in
      if (0 <=? e)%Z then RInteger (n * 2 ^ e)
      else RInteger (Z.shiftr (n + 2 ^ (- e - 1)) (- e))
  end.

(** The string a template literal makes of such a number.  An integer up to
    [2^53] in magnitude prints as its decimal digits; for larger ones the
    digits depend on the shortest-representation rule, which is not modelled:
    [None]. *)
Definition Number_toString (r : Rounded) : option string :=
  match r with
  | RNaN => Some "NaN"
  | RInfinity false => Some "Infinity"
  | RInfinity true => Some "-Infinity"
  | RInteger z =>
      if (Z.abs z <=? 2 ^ 53)%Z then Some (NilZero.string_of_int (Z.to_int z))
      else None
  end.

Definition is_nan (x : Number) : bool :=
  match x with S754_nan => true | _ => false end.

(** The literals [0] and [1]. *)
Definition number_0 : Number := S754_zero false.

Definition number_1 : Number := Eval vm_compute in Prim2SF 1%float.

(** A confidence score: a binary64 value from 0 to 1. *)
Definition confidence (x : Number) : bool :=
  valid_binary x && SFleb number_0 x && SFleb x number_1.

(** The literals [0.82], [0.10], [0.08] and [0.5]: the binary64 values
    nearest to them. *)
#[warnings="-inexact-float"]
Definition number_0_82 : Number := Eval vm_compute in Prim2SF 0.82%float.

#[warnings="-inexact-float"]
Definition number_0_10 : Number := Eval vm_compute in Prim2SF 0.10%float.

#[warnings="-inexact-float"]
Definition number_0_08 : Number := Eval vm_compute in Prim2SF 0.08%float.

Definition number_0_5 : Number := Eval vm_compute in Prim2SF 0.5%float.

(** ** The order of Numbers *)

(** A key whose lexicographic order is the order [SFcompare] puts on the
    Numbers other than NaN. *)
Definition key (x : Number) : Z * Z * Z :=
  match x with
  | S754_nan => (0, 0, 0)
  | S754_zero _ => (0, 0, 0)
  | S754_infinity true => (-2, 0, 0)
  | S754_infinity false => (2, 0, 0)
  | S754_finite false m e => (1, e, Z.pos m)
  | S754_finite true m e => (-1, - e, Z.neg m)
  end%Z.

Definition lex_lt (a b : Z * Z * Z) : Prop :=
  let '(a1, a2, a3) := a in
  let '(b1, b2, b3) := b in
  (a1 < b1 \/ (a1 = b1 /\ (a2 < b2 \/ (a2 = b2 /\ a3 < b3))))%Z.

End JSNumber.

(* ================================================================== *)
(** * app/components/FaceDetection.tsx *)
(* ================================================================== *)

Module FaceDetection.
Export MediaStreams.
Export JSNumber.

(** ** Detection results *)

Record Box := {
  box_x : Number;
  box_y : Number;
  box_width : Number;
  box_height : Number
}.

(** [Object.entries(detection.expressions)]: the entries in the order the
    object enumerates them. *)
Definition Expressions := list (string * Number).

(** What [detectSingleFace(...).withFaceExpressions()] resolves to when there
    is a face. *)
Record Detection := {
  detection_box : Box;
  expressions : Expressions
}.

(** The callback of [reduce]: [(a, b) => a[1] > b[1] ? a : b]. *)
Definition pick (a b : string * Number) : string * Number :=
  if SFltb (snd b) (snd a) then a else b.

(** [Object.entries(expressions).reduce((a, b) => a[1] > b[1] ? a : b)].
    Without an initial value [reduce] starts from the first entry and throws a
    TypeError on an empty array: [None]. *)
Definition dominantExpression (entries : Expressions) : option (string * Number) :=
  match entries with
  | [] => None
  | first :: rest => Some (fold_left pick rest first)
  end.

(** The template literal
    [`${dominantExpression[0]}: ${Math.round(dominantExpression[1] * 100)}%`]
    with its number computed but not yet printed. *)
Record Label := {
  l_expression : string;
  l_percent : Rounded
}.

Definition label_of (e : string * Number) : Label :=
  {| l_expression := fst e; l_percent := Math_round (SF64mul (snd e) number_100) |}.

(** The text of the label. *)
Definition Label_text (l : Label) : option string :=
  match Number_toString (l_percent l) with
  | Some digits => Some (l_expression l ++ ": " ++ digits ++ "%")%string
  | None => None
  end.

(** The text drawn for a table of expressions. *)
Definition expression_text (entries : Expressions) : option string :=
  match dominantExpression entries with
  | Some e => Label_text (label_of e)
  | None => None
  end.

(** ** Tables of expressions *)

(** No score is NaN. *)
Definition numbers (entries : Expressions) : Prop :=
  forall e, In e entries -> is_nan (snd e) = false.

(** Every score is a confidence. *)
Definition confidences (entries : Expressions) : Prop :=
  forall e, In e entries -> confidence (snd e) = true.

(** The tie-break as the specification words it, to compare the code with:
    the first of the entries with the greatest score wins. *)
Definition first_maximal (entries : Expressions) : option (string * Number) :=
  match entries with
  | [] => None
  | first :: rest =>
      Some (fold_left (fun a b => if SFltb (snd a) (snd b) then b else a) rest first)
  end.

(** Two expressions with exactly equal scores. *)
Definition tied_expressions : Expressions :=
  [("happy"%string, number_0_5); ("sad"%string, number_0_5)].

(** The expressions [{happy: 0.82, neutral: 0.10, sad: 0.08}]. *)
Definition sample_expressions : Expressions :=
  [("happy"%string, number_0_82); ("neutral"%string, number_0_10);
   ("sad"%string, number_0_08)].

(** ** DOM elements *)

(** What is painted on the overlay canvas.  The texts are drawn at the fixed
    height 50; their horizontal position, [(canvas.width - textWidth) / 2],
    depends on the font metrics and is left out. *)
Inductive Drawing :=
| DetectionBox (b : Box) (w h : N)     (* drawDetections, the box resized to w x h *)
| StrokeText (l : Label) (y : Z)
| FillText (l : Label) (y : Z).

Record HTMLVideoElement := {
  videoWidth : N;
  videoHeight : N;
  srcObject : option MediaStream
}.

Record HTMLCanvasElement := {
  width : N;
  height : N;
  (** what [getContext("2d")] returns is non-null *)
  context2d : bool;
  (** what has been painted since the bitmap was last cleared *)
  drawn : list Drawing
}.

Definition freshVideo : HTMLVideoElement :=
  {| videoWidth := 0; videoHeight := 0; srcObject := None |}.

Definition freshCanvas : HTMLCanvasElement :=
  {| width := 300; height := 150; context2d := true; drawn := [] |}.

(** ** Component state: the three [useState] cells *)

Record State := {
  modelsLoaded : bool;
  stream : option MediaStream;
  isVideoPlaying : bool
}.

Definition initialState : State :=
  {| modelsLoaded := false; stream := None; isVideoPlaying := false |}.

Definition setModelsLoaded (v : bool) (x : State) : State :=
  {| modelsLoaded := v; stream := stream x; isVideoPlaying := isVideoPlaying x |}.

Definition setStream (v : option MediaStream) (x : State) : State :=
  {| modelsLoaded := modelsLoaded x; stream := v; isVideoPlaying := isVideoPlaying x |}.

Definition setIsVideoPlaying (v : bool) (x : State) : State :=
  {| modelsLoaded := modelsLoaded x; stream := stream x; isVideoPlaying := v |}.

(** The [detectExpressions] closure of one run of the detection effect: the
    state of the render the run belongs to, and the number of the run, which
    names its [animationFrameId] variable. *)
Record Loop := {
  loop_run : nat;
  loop_snap : State
}.

(** What the component does to the outside world, in order. *)
Inductive Action :=
| ConsoleLog (msg : string)
| ConsoleError (msg : string)
| LoadModels                          (* the two loadFromUri calls *)
| GetUserMedia (w h : N)
| DetectSingleFace                    (* detectSingleFace(...).withFaceExpressions() *)
| RequestAnimationFrame (id : nat)
| CancelAnimationFrame (id : nat).

Inductive Phase := NotMounted | Mounted | Unmounted.

Record Sys := {
  phase : Phase;
  st : State;
  (** the two elements of the JSX; the refs point at them while mounted *)
  video : HTMLVideoElement;
  canvas : HTMLCanvasElement;
  media : Media;
  (** the promise of [loadModels] is not settled yet *)
  modelsPending : bool;
  (** [getUserMedia] promises not yet settled *)
  pendingMedia : nat;
  (** the number of the latest run of the detection effect *)
  effectRun : nat;
  (** the [animationFrameId] variables that have been assigned, by run, the
      latest assignment of a run first *)
  animationFrameId : list (nat * nat);
  (** calls of [detectExpressions] suspended at their [await], oldest first *)
  awaiting : list Loop;
  (** animation frame callbacks requested and neither run nor cancelled *)
  frames : list (nat * Loop);
  (** the id the next [requestAnimationFrame] returns; ids are positive *)
  nextFrame : nat;
  trace : list Action
}.

Definition initialSys : Sys :=
  {| phase := NotMounted; st := initialState; video := freshVideo; canvas := freshCanvas;
     media := []; modelsPending := false; pendingMedia := 0; effectRun := 0;
     animationFrameId := []; awaiting := []; frames := []; nextFrame := 1;
     trace := [] |}.

(** *** Field updates *)

Definition set_phase (v : Phase) (s : Sys) : Sys :=
  {| phase := v; st := st s; video := video s; canvas := canvas s; media := media s;
     modelsPending := modelsPending s; pendingMedia := pendingMedia s;
     effectRun := effectRun s; animationFrameId := animationFrameId s;
     awaiting := awaiting s; frames := frames s; nextFrame := nextFrame s;
     trace := trace s |}.

Definition set_st (v : State) (s : Sys) : Sys :=
  {| phase := phase s; st := v; video := video s; canvas := canvas s; media := media s;
     modelsPending := modelsPending s; pendingMedia := pendingMedia s;
     effectRun := effectRun s; animationFrameId := animationFrameId s;
     awaiting := awaiting s; frames := frames s; nextFrame := nextFrame s;
     trace := trace s |}.

Definition set_video (v : HTMLVideoElement) (s : Sys) : Sys :=
  {| phase := phase s; st := st s; video := v; canvas := canvas s; media := media s;
     modelsPending := modelsPending s; pendingMedia := pendingMedia s;
     effectRun := effectRun s; animationFrameId := animationFrameId s;
     awaiting := awaiting s; frames := frames s; nextFrame := nextFrame s;
     trace := trace s |}.

Definition set_canvas (v : HTMLCanvasElement) (s : Sys) : Sys :=
  {| phase := phase s; st := st s; video := video s; canvas := v; media := media s;
     modelsPending := modelsPending s; pendingMedia := pendingMedia s;
     effectRun := effectRun s; animationFrameId := animationFrameId s;
     awaiting := awaiting s; frames := frames s; nextFrame := nextFrame s;
     trace := trace s |}.

Definition set_media (v : Media) (s : Sys) : Sys :=
  {| phase := phase s; st := st s; video := video s; canvas := canvas s; media := v;
     modelsPending := modelsPending s; pendingMedia := pendingMedia s;
     effectRun := effectRun s; animationFrameId := animationFrameId s;
     awaiting := awaiting s; frames := frames s; nextFrame := nextFrame s;
     trace := trace s |}.

Definition set_modelsPending (v : bool) (s : Sys) : Sys :=
  {| phase := phase s; st := st s; video := video s; canvas := canvas s;
     media := media s; modelsPending := v; pendingMedia := pendingMedia s;
     effectRun := effectRun s; animationFrameId := animationFrameId s;
     awaiting := awaiting s; frames := frames s; nextFrame := nextFrame s;
     trace := trace s |}.

Definition set_pendingMedia (v : nat) (s : Sys) : Sys :=
  {| phase := phase s; st := st s; video := video s; canvas := canvas s;
     media := media s; modelsPending := modelsPending s; pendingMedia := v;
     effectRun := effectRun s; animationFrameId := animationFrameId s;
     awaiting := awaiting s; frames := frames s; nextFrame := nextFrame s;
     trace := trace s |}.

Definition set_effectRun (v : nat) (s : Sys) : Sys :=
  {| phase := phase s; st := st s; video := video s; canvas := canvas s;
     media := media s; modelsPending := modelsPending s;
     pendingMedia := pendingMedia s; effectRun := v;
     animationFrameId := animationFrameId s; awaiting := awaiting s;
     frames := frames s; nextFrame := nextFrame s; trace := trace s |}.

Definition set_animationFrameId (v : list (nat * nat)) (s : Sys) : Sys :=
  {| phase := phase s; st := st s; video := video s; canvas := canvas s;
     media := media s; modelsPending := modelsPending s;
     pendingMedia := pendingMedia s; effectRun := effectRun s; animationFrameId := v;
     awaiting := awaiting s; frames := frames s; nextFrame := nextFrame s;
     trace := trace s |}.

Definition set_awaiting (v : list Loop) (s : Sys) : Sys :=
  {| phase := phase s; st := st s; video := video s; canvas := canvas s;
     media := media s; modelsPending := modelsPending s;
     pendingMedia := pendingMedia s; effectRun := effectRun s;
     animationFrameId := animationFrameId s; awaiting := v; frames := frames s;
     nextFrame := nextFrame s; trace := trace s |}.

Definition set_frames (v : list (nat * Loop)) (s : Sys) : Sys :=
  {| phase := phase s; st := st s; video := video s; canvas := canvas s;
     media := media s; modelsPending := modelsPending s;
     pendingMedia := pendingMedia s; effectRun := effectRun s;
     animationFrameId := animationFrameId s; awaiting := awaiting s; frames := v;
     nextFrame := nextFrame s; trace := trace s |}.

Definition set_nextFrame (v : nat) (s : Sys) : Sys :=
  {| phase := phase s; st := st s; video := video s; canvas := canvas s;
     media := media s; modelsPending := modelsPending s;
     pendingMedia := pendingMedia s; effectRun := effectRun s;
     animationFrameId := animationFrameId s; awaiting := awaiting s;
     frames := frames s; nextFrame := v; trace := trace s |}.

Definition emit (a : Action) (s : Sys) : Sys :=
  {| phase := phase s; st := st s; video := video s; canvas := canvas s; media := media s;
     modelsPending := modelsPending s; pendingMedia := pendingMedia s;
     effectRun := effectRun s; animationFrameId := animationFrameId s;
     awaiting := awaiting s; frames := frames s; nextFrame := nextFrame s;
     trace := trace s ++ [a] |}.

Definition is_mounted (s : Sys) : bool :=
  match phase s with Mounted => true | _ => false end.

(** [videoRef.current] and [canvasRef.current]: both elements are rendered
    unconditionally, so the refs are set from mount to unmount. *)
Definition videoRef (s : Sys) : option HTMLVideoElement :=
  if is_mounted s then Some (video s) else None.

Definition canvasRef (s : Sys) : option HTMLCanvasElement :=
  if is_mounted s then Some (canvas s) else None.

(** ** Model loading: the mount effect *)

(** [loadModels] up to its [await Promise.all(...)]. *)
Definition loadModels (s : Sys) : Sys :=
  set_modelsPending true
    (emit LoadModels (emit (ConsoleLog "Starting to load models...") s)).

(** The cleanup the mount effect returns; [snap] is the render whose closure
    it is. *)
Definition cleanup (snap : State) (s : Sys) : Sys :=
  match stream snap with
  | Some id => set_media (stopTracks id (media s)) s
  | None => s
  end.

(** ** Webcam initialisation: the effect on [modelsLoaded] *)

(** [startVideo] up to its [await]. *)
Definition startVideo (s : Sys) : Sys :=
  set_pendingMedia (S (pendingMedia s))
    (emit (GetUserMedia 640 480) (emit (ConsoleLog "Starting video...") s)).

Definition webcamEffect (snap : State) (s : Sys) : Sys :=
  if modelsLoaded snap then startVideo s else s.

(** ** The detection loop: the effect on [modelsLoaded] and [isVideoPlaying] *)

Definition notReady : Action :=
  ConsoleLog "Video or canvas not ready, or video not playing".

(** [detectExpressions] up to its [await]. *)
Definition detectExpressions (l : Loop) (s : Sys) : Sys :=
  match videoRef s, canvasRef s with
  | Some _, Some _ =>
      if isVideoPlaying (loop_snap l) then
        set_awaiting (awaiting s ++ [l])
          (emit DetectSingleFace (emit (ConsoleLog "Starting detection...") s))
      else emit notReady s
  | _, _ => emit notReady s
  end.

(** [animationFrameId = requestAnimationFrame(detectExpressions)]. *)
Definition requestFrame (l : Loop) (s : Sys) : Sys :=
  let id := nextFrame s in
  set_nextFrame (S id)
    (set_animationFrameId ((loop_run l, id) :: animationFrameId s)
       (set_frames (frames s ++ [(id, l)]) (emit (RequestAnimationFrame id) s))).

(** [detectExpressions] from the [await] on; [detection] is what the promise
    resolved to.  [video] and [canvas] are the elements read before the
    [await].  Of face-api.js: [matchDimensions(canvas, video, true)] gives the
    canvas the video's [videoWidth] and [videoHeight] and returns them, and
    [resizeResults] throws when one of them is 0. *)
Definition detectExpressions_resumed (l : Loop) (detection : option Detection) (s : Sys)
  : Sys :=
  match detection with
  | Some d =>
      let s1 := emit (ConsoleLog "Face detected!") s in
      if context2d (canvas s1) then
        (* context.clearRect(0, 0, canvas.width, canvas.height), then
           faceapi.matchDimensions(canvas, video, true), which sizes the canvas
           to the video and leaves it blank *)
        let w := videoWidth (video s1) in
        let h := videoHeight (video s1) in
        let sized := {| width := w; height := h; context2d := true; drawn := [] |} in
        if ((w =? 0) || (h =? 0))%N then
          (* faceapi.resizeResults(detection, dims) throws on a width or a
             height of 0: the call ends here, nothing is drawn and no frame
             is requested *)
          set_canvas sized s1
        else
          (* drawDetections *)
          let boxed := {| width := w; height := h; context2d := true;
                          drawn := [DetectionBox (detection_box d) w h] |} in
          let s2 := emit (ConsoleLog "All expressions:") (set_canvas boxed s1) in
          match dominantExpression (expressions d) with
          | Some e =>
              let text := label_of e in
              let labelled := {| width := w; height := h; context2d := true;
                                 drawn := drawn boxed
                                            ++ [StrokeText text 50; FillText text 50] |} in
              requestFrame l
                (set_canvas labelled (emit (ConsoleLog "Dominant expression:") s2))
          | None => s2                  (* reduce throws: the call ends here *)
          end
      else s1                           (* if (!context) return *)
  | None => requestFrame l (emit (ConsoleLog "No face detected") s)
  end.

(** The body of the effect, run for the render with state [snap]. *)
Definition detectionEffect (snap : State) (s : Sys) : Sys :=
  let run := S (effectRun s) in
  let s1 := set_effectRun run s in
  if modelsLoaded snap && isVideoPlaying snap then
    detectExpressions {| loop_run := run; loop_snap := snap |}
      (emit (ConsoleLog "Starting detection loop") s1)
  else s1.

(** The value of the [animationFrameId] variable of a run. *)
Fixpoint frameIdOf (run : nat) (ids : list (nat * nat)) : option nat :=
  match ids with
  | [] => None
  | (r, id) :: ids' => if Nat.eqb r run then Some id else frameIdOf run ids'
  end.

(** The cleanup of the latest run:
    [if (animationFrameId) cancelAnimationFrame(animationFrameId)]. *)
Definition detectionCleanup (s : Sys) : Sys :=
  match frameIdOf (effectRun s) (animationFrameId s) with
  | Some id =>
      set_frames (filter (fun f => negb (Nat.eqb (fst f) id)) (frames s))
        (emit (CancelAnimationFrame id) s)
  | None => s
  end.

(** ** Rendering *)

(** A state update: the cell is written, and when the component is mounted it
    renders again and the effects whose dependencies changed run, cleanups
    first, then the effect bodies in the order of the source. *)
Definition update (f : State -> State) (s : Sys) : Sys :=
  let old := st s in
  let new := f old in
  let s0 := set_st new s in
  if is_mounted s0 then
    let webcamDeps := negb (Bool.eqb (modelsLoaded old) (modelsLoaded new)) in
    let detectionDeps :=
      webcamDeps || negb (Bool.eqb (isVideoPlaying old) (isVideoPlaying new)) in
    let s1 := if detectionDeps then detectionCleanup s0 else s0 in
    let s2 := if webcamDeps then webcamEffect new s1 else s1 in
    if detectionDeps then detectionEffect new s2 else s2
  else s0.

(** The continuation of [loadModels] when both models are loaded, and its
    [catch] block. *)
Definition loadModels_fulfilled (s : Sys) : Sys :=
  update (setModelsLoaded true) (emit (ConsoleLog "Models loaded successfully!") s).

Definition loadModels_rejected (s : Sys) : Sys :=
  emit (ConsoleError "Error loading models:") s.

(** The continuation of [startVideo] when the camera is granted, and its
    [catch] block. *)
Definition startVideo_fulfilled (tracks : nat) (s : Sys) : Sys :=
  let newStream := List.length (media s) in
  let s1 := set_media (media s ++ [repeat live tracks]) s in
  match videoRef s1 with
  | Some v =>
      emit (ConsoleLog "Video stream set successfully!")
        (update (setStream (Some newStream))
           (set_video {| videoWidth := videoWidth v; videoHeight := videoHeight v;
                         srcObject := Some newStream |} s1))
  | None => s1
  end.

Definition startVideo_rejected (s : Sys) : Sys :=
  emit (ConsoleError "Error accessing webcam:") s.

(** [x || fallback] on a dimension: zero is falsy. *)
Definition or_default (x fallback : N) : N :=
  if (x =? 0)%N then fallback else x.

(** [onPlay={handleVideoPlay}]. *)
Definition handleVideoPlay (s : Sys) : Sys :=
  let s1 := emit (ConsoleLog "Video started playing") s in
  let s2 :=
    match canvasRef s1 with
    | Some c =>
        set_canvas
          {| width := or_default (match videoRef s1 with
                                  | Some v => videoWidth v
                                  | None => 0%N
                                  end) 640;
             height := or_default (match videoRef s1 with
                                   | Some v => videoHeight v
                                   | None => 0%N
                                   end) 480;
             context2d := context2d c;
             drawn := [] |} s1
    | None => s1
    end in
  update (setIsVideoPlaying true) s2.

(** ** Events *)

Inductive Event :=
| Mount
| Unmount
| ModelsLoaded                         (* the promise of loadModels fulfils *)
| ModelsFailed                         (* ... or rejects *)
| StreamGranted (tracks : nat)         (* the oldest pending getUserMedia fulfils *)
| StreamDenied                         (* ... or rejects *)
| VideoResize (w h : N)                (* the video element learns its size *)
| VideoPlay                            (* the video element fires play *)
| DetectionSettled (d : option Detection)  (* the oldest awaited detection resolves *)
| DetectionFailed                      (* ... or rejects *)
| AnimationFrame.                      (* the oldest requested frame callback runs *)

(** The component after its first render and commit. *)
Definition mountedSys : Sys :=
  {| phase := Mounted; st := initialState; video := freshVideo; canvas := freshCanvas;
     media := []; modelsPending := false; pendingMedia := 0; effectRun := 0;
     animationFrameId := []; awaiting := []; frames := []; nextFrame := 1;
     trace := [] |}.

Definition step (s : Sys) (e : Event) : Sys :=
  match e with
  | Mount =>
      match phase s with
      | NotMounted =>
          (* the three effects of the first render, in the order of the source *)
          detectionEffect initialState
            (webcamEffect initialState (loadModels mountedSys))
      | _ => s
      end
  | Unmount =>
      if is_mounted s then
        (* the cleanup of the mount effect is the closure of the first render *)
        detectionCleanup (cleanup initialState (set_phase Unmounted s))
      else s
  | ModelsLoaded =>
      if modelsPending s then loadModels_fulfilled (set_modelsPending false s) else s
  | ModelsFailed =>
      if modelsPending s then loadModels_rejected (set_modelsPending false s) else s
  | StreamGranted tracks =>
      match pendingMedia s with
      | O => s
      | S n => startVideo_fulfilled tracks (set_pendingMedia n s)
      end
  | StreamDenied =>
      match pendingMedia s with
      | O => s
      | S n => startVideo_rejected (set_pendingMedia n s)
      end
  | VideoResize w h =>
      if is_mounted s then
        set_video {| videoWidth := w; videoHeight := h;
                     srcObject := srcObject (video s) |} s
      else s
  | VideoPlay =>
      if is_mounted s then handleVideoPlay s else s
  | DetectionSettled d =>
      match awaiting s with
      | [] => s
      | l :: rest => detectExpressions_resumed l d (set_awaiting rest s)
      end
  | DetectionFailed =>
      match awaiting s with
      | [] => s
      | _ :: rest => set_awaiting rest s
      end
  | AnimationFrame =>
      match frames s with
      | [] => s
      | (_, l) :: rest => detectExpressions l (set_frames rest s)
      end
  end.

Definition run_from (s : Sys) (evs : list Event) : Sys := fold_left step evs s.

Definition run (evs : list Event) : Sys := run_from initialSys evs.

(** ** Order in a trace, and the invariant of the detection loop *)

(** Every occurrence of [a] in [tr] comes after an occurrence of [b]. *)
Definition preceded (b a : Action) (tr : list Action) : Prop :=
  forall pre post, tr = pre ++ a :: post -> In b pre.

(** The lines the component logs when the models are loaded, when the video
    element reports playback, and when the detection effect starts the loop. *)
Definition modelsLoadedMsg : Action := ConsoleLog "Models loaded successfully!".
Definition videoPlayingMsg : Action := ConsoleLog "Video started playing".
Definition loopStartMsg : Action := ConsoleLog "Starting detection loop".

Record loop_inv (s : Sys) : Prop := {
  inv_loaded : modelsLoaded (st s) = true -> In modelsLoadedMsg (trace s);
  inv_playing : isVideoPlaying (st s) = true -> In videoPlayingMsg (trace s);
  inv_tasks : awaiting s <> [] \/ frames s <> [] ->
              modelsLoaded (st s) = true /\ isVideoPlaying (st s) = true;
  inv_detect : In DetectSingleFace (trace s) \/ In loopStartMsg (trace s) ->
               modelsLoaded (st s) = true /\ isVideoPlaying (st s) = true;
  inv_media : In (GetUserMedia 640 480) (trace s) -> modelsLoaded (st s) = true;
  ord_media : preceded modelsLoadedMsg (GetUserMedia 640 480) (trace s);
  ord_loop_loaded : preceded modelsLoadedMsg loopStartMsg (trace s);
  ord_loop_playing : preceded videoPlayingMsg loopStartMsg (trace s);
  ord_detect_loaded : preceded modelsLoadedMsg DetectSingleFace (trace s);
  ord_detect_playing : preceded videoPlayingMsg DetectSingleFace (trace s)
}.

(** ** A sample run *)

Definition sample_box : Box :=
  {| box_x := number_0; box_y := number_0; box_width := number_0_5;
     box_height := number_0_5 |}.

Definition sample_face : Detection :=
  {| detection_box := sample_box; expressions := sample_expressions |}.

(** A run up to and including one detection cycle that found a face. *)
Definition face_seen : list Event :=
  [Mount; ModelsLoaded; StreamGranted 1; VideoResize 640 480; VideoPlay;
   DetectionSettled (Some sample_face); AnimationFrame].

End FaceDetection.

(* ================================================================== *)
(** * The capture page: what it shows, and its bookkeeping *)
(* ================================================================== *)

Module WebcamCaptureView.
Import WebcamCapture.

(** ** What the review mode shows *)

(** Truthiness of a [string | null] value: null and the empty string are
    falsy. *)
Definition truthy (v : option string) : bool :=
  match v with
  | Some (String _ _) => true
  | _ => false
  end.

(** The text of the Save button, when there is a Save button: it is rendered
    in the review branch of [!capturedImage ? ... : ...] only, and reads
    [isSaving ? "Saving..." : savedFileName ? "Saved!" : "Save Photo"]. *)
Definition saveButtonText (x : State) : option string :=
  if reviewMode x then
    Some (if isSaving x then "Saving..."
          else if truthy (savedFileName x) then "Saved!"
          else "Save Photo")%string
  else None.

(** [{savedFileName && (<div ...>Saved as: {savedFileName}</div>)}], an
    element of the review branch too: the banner, when there is one. *)
Definition savedBanner (x : State) : option string :=
  if reviewMode x && truthy (savedFileName x)
  then option_map (String.append "Saved as: ") (savedFileName x)
  else None.

(** A run in which Retake is clicked while the save is in flight: the page is
    back in camera mode when the answer comes. *)
Definition retaken_while_saving : list Event := saving_run ++ [ClickRetake].

(** ** Counting requests and clicks *)

Definition is_GetUserMedia (o : Output) : bool :=
  match o with GetUserMedia _ _ => true | _ => false end.

Definition is_Fetch (o : Output) : bool :=
  match o with Fetch _ _ => true | _ => false end.

Definition is_ClickRetake (e : Event) : bool :=
  match e with ClickRetake => true | _ => false end.

Definition is_ClickSave (e : Event) : bool :=
  match e with ClickSave => true | _ => false end.

Definition count {A : Type} (f : A -> bool) (l : list A) : nat :=
  List.length (filter f l).

(** ** The elements behind the refs *)

(** While the component is mounted the canvas exists and has a 2d context,
    and the video element exists exactly in camera mode; after the unmount
    both refs are null. *)
Definition dom_inv (s : Sys) : Prop :=
  match phase s with
  | NotMounted => True
  | Mounted =>
      (exists c, canvasRef s = Some c /\ context2d c = true)
      /\ (if reviewMode (st s) then videoRef s = None
          else exists v, videoRef s = Some v)
  | Unmounted => videoRef s = None /\ canvasRef s = None
  end.

(** One for a component that has been mounted, to count its first
    [getUserMedia] with. *)
Definition mounted_once (s : Sys) : nat :=
  match phase s with NotMounted => 0 | _ => 1 end.

(** The stream the state holds is one of the table, and nothing is pending
    before the mount. *)
Definition held_inv (s : Sys) : Prop :=
  (forall id, stream (st s) = Some id -> id < List.length (media s))
  /\ (phase s = NotMounted -> pendingMedia s = 0).

(** A run that takes a photo before the camera is granted. *)
Definition early_photo : list Event := [Mount; ClickTakePhoto].

(** A stream of the table that the component does not hold and that is fully
    live. *)
Definition dropped (id : MediaStream) (tracks : nat) (s : Sys) : Prop :=
  phase s <> NotMounted
  /\ id < List.length (media s)
  /\ nth id (media s) [] = repeat live tracks
  /\ stream (st s) <> Some id.

End WebcamCaptureView.

(* ================================================================== *)
(** * The save-image route: reading its names and its pattern *)
(* ================================================================== *)

Module SaveImageView.
Import Strings.Byte.
Import SaveImage.
Local Open Scope string_scope.

(** ** Reading a file name back *)

(** The value of a lower-case hexadecimal digit. *)
Definition unhex_digit (c : ascii) : option N :=
  let n := N_of_ascii c in
  if ((48 <=? n) && (n <=? 57))%N then Some (n - 48)%N
  else if ((97 <=? n) && (n <=? 102))%N then Some (n - 87)%N
  else None.

(** The bytes a string of hexadecimal digit pairs stands for: the inverse of
    [toString_hex]. *)
Fixpoint bytes_of_hex (s : string) : option (list byte) :=
  match s with
  | EmptyString => Some []
  | String c1 (String c2 s') =>
      match unhex_digit c1, unhex_digit c2, bytes_of_hex s' with
      | Some hi, Some lo, Some bs =>
          match of_N (hi * 16 + lo) with
          | Some b => Some (b :: bs)
          | None => None
          end
      | _, _, _ => None
      end
  | String _ EmptyString => None
  end.

(** The strings the pattern [/^data:image\/\w+;base64,/] matches a prefix of. *)
Definition is_image_data_url (image : string) : Prop :=
  exists subtype payload,
    subtype <> "" /\ word_string subtype = true
    /\ image = "data:image/" ++ subtype ++ ";base64," ++ payload.

End SaveImageView.

(* ================================================================== *)
(** * From the capture page to the route and back *)
(* ================================================================== *)

Module CaptureToSave.
Import Strings.Byte.
Import WebcamCapture.

Section Wire.

(** The base64 text [toDataURL("image/png")] puts after the prefix: the PNG
    encoding of the raster, in base64. *)
Variable png_base64 : Raster -> string.

(** [Buffer.from(_, "base64")] and [process.cwd()] on the server. *)
Variable Buffer_from_base64 : string -> list byte.
Variable cwd : SaveImage.Path.

(** The data URL as the string it is. *)
Definition DataURL_text (u : DataURL) : string :=
  match u with
  | EmptyData => "data:,"
  | PngData r => ("data:image/png;base64," ++ png_base64 r)%string
  end.

(** What [req.json()] gives the route for the body
    [JSON.stringify({ image: capturedImage })]. *)
Definition request_body (image : DataURL) : SaveImage.Body :=
  SaveImage.Image (DataURL_text image).

(** What [savePhoto] makes of the route's answer: [response.json()], then the
    test of [data.success]. *)
Definition outcome_of (r : SaveImage.Result) : SaveOutcome :=
  match SaveImage.json (SaveImage.response r) with
  | SaveImage.Success fileName => RespSuccess fileName
  | SaveImage.Failure error => RespFailure error
  end.

(** One round trip: the route handles the oldest request in flight, with
    [randomBytes] for a name and [writeFile_ok] for the outcome of the write,
    and its answer settles the request.  The result is the component after it
    and the files written. *)
Definition serve (randomBytes : list byte) (writeFile_ok : bool) (s : Sys)
  : Sys * list (SaveImage.Path * list byte) :=
  match inflight s with
  | [] => (s, [])
  | image :: _ =>
      let r := SaveImage.POST Buffer_from_base64 cwd (request_body image)
                 randomBytes writeFile_ok in
      (step s (FetchSettled (outcome_of r)), SaveImage.written r)
  end.

(** What the route decodes for a data URL. *)
Definition stored_text (u : DataURL) : string :=
  match u with
  | EmptyData => "data:,"
  | PngData r => png_base64 r
  end.

End Wire.

(** A run that ends in review mode with a photo to save. *)
Definition photo_taken : list Event :=
  [Mount; StreamGranted 1; VideoFrame 640 480 7; ClickTakePhoto].

(** An encoder to run the round trip with: every raster is sent as the first
    bytes of a PNG file. *)
Definition sample_png (_ : Raster) : string := "iVBORw==".

End CaptureToSave.

(* ================================================================== *)
(** * The face detection page: its loop and its camera *)
(* ================================================================== *)

Module FaceDetectionView.
Import FaceDetection.

Definition is_GetUserMedia (a : Action) : bool :=
  match a with GetUserMedia _ _ => true | _ => false end.

Definition is_DetectSingleFace (a : Action) : bool :=
  match a with DetectSingleFace => true | _ => false end.

(** Actions among which there is neither a camera request nor a detection. *)
Definition quiet (l : list Action) : Prop :=
  forallb (fun a => negb (is_GetUserMedia a || is_DetectSingleFace a)) l = true.

(** The detection loop is one chain: at most one call of [detectExpressions]
    is suspended or scheduled, it belongs to the latest run of the effect, and
    a scheduled one is what the run's [animationFrameId] names. *)
Record one_loop (s : Sys) : Prop := {
  loop_single : List.length (awaiting s) + List.length (frames s) <= 1;
  loop_awaiting : forall l, In l (awaiting s) -> loop_run l = effectRun s;
  loop_frames : forall id l, In (id, l) (frames s) ->
      loop_run l = effectRun s
      /\ frameIdOf (effectRun s) (animationFrameId s) = Some id;
  loop_flags : awaiting s <> [] \/ frames s <> [] ->
      modelsLoaded (st s) = true /\ isVideoPlaying (st s) = true
}.

(** The camera is asked for when the models become loaded, and only then. *)
Record one_camera (s : Sys) : Prop := {
  camera_count : List.length (filter is_GetUserMedia (trace s))
                 <= (if modelsLoaded (st s) then 1 else 0);
  camera_pending : modelsLoaded (st s) = true -> modelsPending s = false;
  camera_phase : phase s = NotMounted -> modelsPending s = false;
  camera_streams : pendingMedia s + List.length (media s)
                   <= List.length (filter is_GetUserMedia (trace s));
  camera_live : forall ts, In ts (media s) -> ts = repeat live (List.length ts)
}.


Definition loop_over (s : Sys) : Prop :=
  phase s <> NotMounted /\ awaiting s = [] /\ frames s = []
  /\ modelsPending s = false
  /\ modelsLoaded (st s) = true /\ isVideoPlaying (st s) = true.

Definition models_failed (s : Sys) : Prop :=
  phase s <> NotMounted /\ awaiting s = [] /\ frames s = []
  /\ modelsLoaded (st s) = false /\ modelsPending s = false.

(** The ways a detection ends the loop: its promise rejects, or the face it
    found comes with an empty table of expressions, on which [reduce] throws. *)
Definition ends_loop (e : Event) : Prop :=
  match e with
  | DetectionFailed => True
  | DetectionSettled (Some d) => expressions d = []
  | _ => False
  end.

(** The results after which [detectExpressions], with [video] the element it
    read before its [await], reaches its [requestAnimationFrame]: no face; or
    a face, when the video has a size, so that [resizeResults] does not throw,
    and the face has expressions, so that [reduce] does not. *)
Definition keeps_loop (video : HTMLVideoElement) (d : option Detection) : Prop :=
  match d with
  | Some x =>
      videoWidth video <> 0%N /\ videoHeight video <> 0%N /\ expressions x <> []
  | None => True
  end.

(** One turn of the loop per result: the detection settles, then the frame it
    requested runs. *)
Definition cycles (ds : list (option Detection)) : list Event :=
  flat_map (fun d => [DetectionSettled d; AnimationFrame]) ds.

Definition is_RequestAnimationFrame (a : Action) : bool :=
  match a with RequestAnimationFrame _ => true | _ => false end.

Definition count (f : Action -> bool) (l : list Action) : nat :=
  List.length (filter f l).

(** What every suspended or scheduled call of [detectExpressions] can rely
    on: the canvas has a 2d context, the call's closure saw the video playing,
    and nothing is suspended or scheduled before the component mounts. *)
Record loop_ready (s : Sys) : Prop := {
  ready_context : context2d (canvas s) = true;
  ready_awaiting : forall l, In l (awaiting s) -> isVideoPlaying (loop_snap l) = true;
  ready_frames : forall id l, In (id, l) (frames s) ->
                 isVideoPlaying (loop_snap l) = true;
  ready_phase : phase s = NotMounted -> awaiting s = [] /\ frames s = []
}.

(** A run that leaves an animation frame callback scheduled. *)
Definition frame_scheduled : list Event :=
  [Mount; ModelsLoaded; StreamGranted 1; VideoPlay; DetectionSettled None].

(** A run that leaves a detection suspended at its [await]. *)
Definition detection_awaited : list Event :=
  [Mount; ModelsLoaded; StreamGranted 1; VideoPlay].

(** The same, the video element having learnt its size before it plays. *)
Definition detection_awaited_sized : list Event :=
  [Mount; ModelsLoaded; StreamGranted 1; VideoResize 640 480; VideoPlay].

(** The loop at rest between two turns: mounted, one call suspended at its
    [await], none scheduled. *)
Definition cycling (a : Loop) (s : Sys) : Prop :=
  phase s = Mounted /\ awaiting s = [a] /\ frames s = []
  /\ isVideoPlaying (loop_snap a) = true /\ context2d (canvas s) = true.

End FaceDetectionView.

(* ================================================================== *)
(** * The audio player (src/app/components/SimpleRef.tsx) *)
(* ================================================================== *)

Module AudioPlayer.

(** The [<audio>] element, as far as the component drives it: its [paused]
    attribute, and whether its [error] attribute is set, which it is when the
    source could not be loaded (MEDIA_ERR_SRC_NOT_SUPPORTED).  The element
    has no [autoplay] and no [loop]. *)
Record HTMLAudioElement := {
  paused : bool;
  error : bool
}.

Definition freshAudio : HTMLAudioElement := {| paused := true; error := false |}.

(** The methods the component calls on the element, in order. *)
Inductive Call := Play | Pause.

Inductive Phase := NotMounted | Mounted | Unmounted.

Record Sys := {
  phase : Phase;
  (** the [useState] cell *)
  isPlaying : bool;
  audio : HTMLAudioElement;
  calls : list Call
}.

Definition initialSys : Sys :=
  {| phase := NotMounted; isPlaying := false; audio := freshAudio; calls := [] |}.

Definition set_phase (v : Phase) (s : Sys) : Sys :=
  {| phase := v; isPlaying := isPlaying s; audio := audio s; calls := calls s |}.

Definition setIsPlaying (v : bool) (s : Sys) : Sys :=
  {| phase := phase s; isPlaying := v; audio := audio s; calls := calls s |}.

Definition set_audio (v : HTMLAudioElement) (s : Sys) : Sys :=
  {| phase := phase s; isPlaying := isPlaying s; audio := v; calls := calls s |}.

Definition set_paused (v : bool) (s : Sys) : Sys :=
  set_audio {| paused := v; error := error (audio s) |} s.

Definition call (c : Call) (s : Sys) : Sys :=
  {| phase := phase s; isPlaying := isPlaying s; audio := audio s;
     calls := calls s ++ [c] |}.

(** [audioRef.current]: the element from mount to unmount. *)
Definition audioRef (s : Sys) : option HTMLAudioElement :=
  match phase s with Mounted => Some (audio s) | _ => None end.

(** [audioRef.current.play()].  On an element whose source could not be
    loaded the call returns a rejected promise and leaves [paused] as it is;
    otherwise it clears [paused].  [togglePlay] drops the promise either
    way. *)
Definition play (s : Sys) : Sys :=
  let s1 := call Play s in
  if error (audio s1) then s1 else set_paused false s1.

(** [audioRef.current.pause()]. *)
Definition pause (s : Sys) : Sys := set_paused true (call Pause s).

(** [togglePlay] of the render whose [isPlaying] is [snap]. *)
Definition togglePlay (snap : bool) (s : Sys) : Sys :=
  match audioRef s with
  | Some _ => setIsPlaying (negb snap) (if snap then pause s else play s)
  | None => s
  end.

(** The two texts of the button. *)
Definition pauseText : string := "⏸️ Pause".

Definition playText : string := "▶️ Play".

(** [{isPlaying ? pauseText : playText}]. *)
Definition buttonText (s : Sys) : string :=
  if isPlaying s then pauseText else playText.

Inductive Event :=
| Mount
| Unmount
| ClickToggle                          (* a click on the button *)
| Ended                                (* playback reaches the end of the track *)
| SourceFailed.                        (* the source turns out not to load *)

Definition is_Ended (e : Event) : bool :=
  match e with Ended => true | _ => false end.

Definition is_SourceFailed (e : Event) : bool :=
  match e with SourceFailed => true | _ => false end.

Definition step (s : Sys) (e : Event) : Sys :=
  match e with
  | Mount =>
      match phase s with
      | NotMounted => set_phase Mounted s
      | _ => s
      end
  | Unmount =>
      match phase s with
      | Mounted =>
          (* an element removed from its document is paused by the browser *)
          set_paused true (set_phase Unmounted s)
      | _ => s
      end
  | ClickToggle =>
      match phase s with
      | Mounted => togglePlay (isPlaying s) s
      | _ => s
      end
  | Ended =>
      (* at the end of the track the browser pauses the element *)
      if paused (audio s) then s else set_paused true s
  | SourceFailed =>
      (* the browser sets the element's error attribute.  The outcome of the
         load is taken to be known by the time play() un-pauses the element:
         an element that is not paused has a source that loaded *)
      if paused (audio s)
      then set_audio {| paused := true; error := true |} s
      else s
  end.

Definition run_from (s : Sys) (evs : list Event) : Sys := fold_left step evs s.

Definition run (evs : list Event) : Sys := run_from initialSys evs.

End AudioPlayer.

(* ================================================================== *)
(** * The first webcam component *)
(* ================================================================== *)

Module SimpleWebcam.
Export MediaStreams.

Record HTMLVideoElement := {
  srcObject : option MediaStream
}.

Inductive Output :=
| ConsoleError (msg : string)
| GetUserMedia.                        (* getUserMedia({ video: true }) *)

Inductive Phase := NotMounted | Mounted | Unmounted.

Record Sys := {
  phase : Phase;
  video : HTMLVideoElement;
  media : Media;
  (** [getUserMedia] promises not yet settled *)
  pendingMedia : nat;
  outputs : list Output
}.

Definition initialSys : Sys :=
  {| phase := NotMounted; video := {| srcObject := None |}; media := [];
     pendingMedia := 0; outputs := [] |}.

Definition set_phase (v : Phase) (s : Sys) : Sys :=
  {| phase := v; video := video s; media := media s;
     pendingMedia := pendingMedia s; outputs := outputs s |}.

Definition set_video (v : HTMLVideoElement) (s : Sys) : Sys :=
  {| phase := phase s; video := v; media := media s;
     pendingMedia := pendingMedia s; outputs := outputs s |}.

Definition set_media (v : Media) (s : Sys) : Sys :=
  {| phase := phase s; video := video s; media := v;
     pendingMedia := pendingMedia s; outputs := outputs s |}.

Definition set_pendingMedia (v : nat) (s : Sys) : Sys :=
  {| phase := phase s; video := video s; media := media s;
     pendingMedia := v; outputs := outputs s |}.

Definition output (o : Output) (s : Sys) : Sys :=
  {| phase := phase s; video := video s; media := media s;
     pendingMedia := pendingMedia s; outputs := outputs s ++ [o] |}.

(** [videoRef.current] as the continuation of [startVideo] sees it: the
    element from mount to unmount. *)
Definition videoRef (s : Sys) : option HTMLVideoElement :=
  match phase s with Mounted => Some (video s) | _ => None end.

(** [startVideo] up to its [await]. *)
Definition startVideo (s : Sys) : Sys :=
  set_pendingMedia (S (pendingMedia s)) (output GetUserMedia s).

(** The continuation of [startVideo] when the camera is granted, and its
    [catch] block. *)
Definition startVideo_fulfilled (tracks : nat) (s : Sys) : Sys :=
  let newStream := List.length (media s) in
  let s1 := set_media (media s ++ [repeat live tracks]) s in
  match videoRef s1 with
  | Some _ => set_video {| srcObject := Some newStream |} s1
  | None => s1
  end.

Definition startVideo_rejected (s : Sys) : Sys :=
  output (ConsoleError "Error accessing webcam:") s.

Section Cleanup.

(** Whether [videoRef.current] still points at the element when the cleanup
    of the effect runs: React detaches the refs of an unmounted tree, and
    whether it does so before it runs the cleanups of [useEffect] depends on
    its version. *)
Variable ref_at_cleanup : bool.

(** [const stream = videoRef.current?.srcObject], then the stop of its
    tracks. *)
Definition cleanup (s : Sys) : Sys :=
  match (if ref_at_cleanup then srcObject (video s) else None) with
  | Some id => set_media (stopTracks id (media s)) s
  | None => s
  end.

Inductive Event :=
| Mount
| Unmount
| StreamGranted (tracks : nat)
| StreamDenied.

Definition step (s : Sys) (e : Event) : Sys :=
  match e with
  | Mount =>
      match phase s with
      | NotMounted => startVideo (set_phase Mounted s)
      | _ => s
      end
  | Unmount =>
      match phase s with
      | Mounted => cleanup (set_phase Unmounted s)
      | _ => s
      end
  | StreamGranted tracks =>
      match pendingMedia s with
      | O => s
      | S n => startVideo_fulfilled tracks (set_pendingMedia n s)
      end
  | StreamDenied =>
      match pendingMedia s with
      | O => s
      | S n => startVideo_rejected (set_pendingMedia n s)
      end
  end.

Definition run_from (s : Sys) (evs : list Event) : Sys := fold_left step evs s.

Definition run (evs : list Event) : Sys := run_from initialSys evs.

(** What holds of a run: one request at most, and a stream that was granted
    while mounted is the only one and is bound to the video element. *)
Definition bound_inv (s : Sys) : Prop :=
  match phase s with
  | NotMounted => s = initialSys
  | Mounted =>
      (media s = [] /\ srcObject (video s) = None /\ pendingMedia s <= 1)
      \/ (exists tracks, media s = [repeat live tracks]
                         /\ srcObject (video s) = Some 0 /\ pendingMedia s = 0)
  | Unmounted => pendingMedia s + List.length (media s) <= 1
  end.

End Cleanup.

End SimpleWebcam.

(* ================================================================== *)
(** * Properties of the capture page *)
(* ================================================================== *)

Module WebcamCaptureProps.
Import WebcamCapture.

(** ** Runs *)

Lemma run_from_snoc (s : Sys) (evs : list Event) (e : Event) :
  run_from s (evs ++ [e]) = step (run_from s evs) e.
Proof. unfold run_from. now rewrite fold_left_app. Qed.

Lemma run_snoc (evs : list Event) (e : Event) :
  run (evs ++ [e]) = step (run evs) e.
Proof. apply run_from_snoc. Qed.

(** A property of the initial state that every event preserves holds after
    every run. *)
Lemma run_invariant (P : Sys -> Prop) :
  P initialSys ->
  (forall s e, P s -> P (step s e)) ->
  forall evs, P (run evs).
Proof.
  intros Hinit Hstep evs.
  induction evs as [| e evs IH] using rev_ind.
  - exact Hinit.
  - rewrite run_snoc. now apply Hstep.
Qed.

(** ** The save protocol *)

Ltac unfold_handlers :=
  unfold savePhoto, savePhoto_settled, retake, capturePhoto, startVideo,
    startVideo_fulfilled, startVideo_rejected, cleanup, commit, saveDisabled,
    reviewMode, is_mounted in *.

Ltac break_match :=
  match goal with
  | |- context [match ?x with _ => _ end] => destruct x eqn:?
  | H : context [match ?x with _ => _ end] |- _ => destruct x eqn:?
  end.

Ltac rewrite_eqs :=
  repeat match goal with
         | H : ?a = _ |- context [?a] => rewrite H
         end.

Ltac crush_step :=
  simpl in *; repeat (break_match; simpl in *; try discriminate);
  repeat split; intros; simpl in *;
  try rewrite length_app in *; simpl in *; try congruence; try lia; auto;
  try solve [rewrite_eqs; simpl; auto].

Lemma save_inv_step (s : Sys) (e : Event) : save_inv s -> save_inv (step s e).
Proof.
  unfold save_inv. intros [Hlen Hname].
  destruct e; simpl; unfold_handlers; crush_step.
Qed.

Lemma save_inv_run (evs : list Event) : save_inv (run evs).
Proof.
  apply run_invariant.
  - split; [reflexivity | discriminate].
  - intros s e. apply save_inv_step.
Qed.

(** ** Releasing the camera *)

Lemma stop_all_inactive (ts : list ReadyState) : active (stop_all ts) = false.
Proof. induction ts as [| t ts IH]; simpl; auto. Qed.

Lemma stopTracks_nth (id : nat) (m : Media) :
  nth id (stopTracks id m) [] = stop_all (nth id m []).
Proof.
  revert id; induction m as [| ts m IH]; intros [| id]; simpl; auto.
Qed.

Lemma stopTracks_length (id : nat) (m : Media) :
  List.length (stopTracks id m) = List.length m.
Proof.
  revert id; induction m as [| ts m IH]; intros [| id]; simpl; auto.
Qed.

(** [startVideo] releases the stream of the render it belongs to before it
    asks for a new one. *)
Lemma startVideo_releases_held_stream (snap : State) (s : Sys) (id : MediaStream) :
  stream snap = Some id ->
  active (nth id (media (startVideo snap s)) []) = false
  /\ outputs (startVideo snap s) = outputs s ++ [GetUserMedia 640 480].
Proof.
  intros H. unfold startVideo. rewrite H. simpl.
  rewrite stopTracks_nth. split; [apply stop_all_inactive | reflexivity].
Qed.

(** Retake clears the captured image and the saved name and releases the
    stream held by the current render. *)
Lemma retake_resets_and_releases (s : Sys) (id : MediaStream) :
  stream (st s) = Some id ->
  let s' := retake (st s) s in
  capturedImage (st s') = None
  /\ savedFileName (st s') = None
  /\ active (nth id (media s') []) = false
  /\ pendingMedia s' = S (pendingMedia s).
Proof.
  intros H. unfold retake, startVideo, commit. rewrite H. simpl.
  destruct (phase s); simpl;
    try (destruct (videoRef s); simpl);
    rewrite stopTracks_nth, stop_all_inactive; auto.
Qed.

(** A state that holds a stream: after mount and grant. *)
Lemma retake_resets_and_releases_witness :
  stream (st (run saving_run)) = Some 0
  /\ capturedImage (st (retake (st (run saving_run)) (run saving_run))) = None
  /\ savedFileName (st (retake (st (run saving_run)) (run saving_run))) = None
  /\ active (nth 0 (media (retake (st (run saving_run)) (run saving_run))) []) = false
  /\ pendingMedia (retake (st (run saving_run)) (run saving_run)) = 1.
Proof.
  split; [reflexivity |].
  apply (retake_resets_and_releases (run saving_run) 0). reflexivity.
Defined.

(** ** Saving *)

(** C1.  While a save is in flight ([isSaving = true]) the Save button is
    disabled: in every such state a click on it changes nothing, so no request
    is issued and no state cell moves; and at every point of every run at most
    one request is in flight. *)
Theorem save_click_rejected_while_saving :
  (forall s : Sys, isSaving (st s) = true -> step s ClickSave = s)
  /\ (forall evs : list Event, List.length (inflight (run evs)) <= 1).
Proof.
  split.
  - intros s H. simpl. unfold saveDisabled. rewrite H. simpl.
    now rewrite andb_false_r.
  - intros evs. destruct (save_inv_run evs) as [H _].
    rewrite H. destruct (isSaving (st (run evs))); lia.
Qed.

Lemma save_click_rejected_while_saving_witness :
  isSaving (st (run saving_run)) = true
  /\ step (run saving_run) ClickSave = run saving_run
  /\ inflight (run (saving_run ++ [ClickSave]))
     = [PngData {| r_width := 640; r_height := 480; r_pixels := Some 7 |}].
Proof.
  split; [reflexivity |]. split.
  - apply (proj1 save_click_rejected_while_saving (run saving_run)). reflexivity.
  - reflexivity.
Defined.

(** C9.  Without a captured frame ([capturedImage = null]) [savePhoto] returns
    at once: nothing is requested and no state cell changes.  The same holds
    for a click on the Save button, which is not even rendered then. *)
Theorem save_without_capture_is_noop (s : Sys) :
  capturedImage (st s) = None ->
  savePhoto (st s) s = s /\ step s ClickSave = s.
Proof.
  intros H. split.
  - unfold savePhoto. now rewrite H.
  - simpl. unfold reviewMode. rewrite H. simpl. now rewrite andb_false_r.
Qed.

Lemma save_without_capture_is_noop_witness :
  capturedImage (st (run [Mount; StreamGranted 1])) = None
  /\ savePhoto (st (run [Mount; StreamGranted 1])) (run [Mount; StreamGranted 1])
     = run [Mount; StreamGranted 1]
  /\ step (run [Mount; StreamGranted 1]) ClickSave = run [Mount; StreamGranted 1].
Proof.
  split; [reflexivity |].
  apply (save_without_capture_is_noop (run [Mount; StreamGranted 1])). reflexivity.
Defined.

(** C10.  However the request settles -- success, a failure reported by the
    server, or an exception -- the [finally] block leaves [isSaving = false].
    Saving is never a terminal state: whenever a run has [isSaving = true] a
    request is in flight, and its settling, whichever way, resets [isSaving].
    And whenever the Save trigger is used, at any point of any run, [isSaving]
    is false once the request has settled. *)
Theorem save_always_resets_isSaving :
  (forall (o : SaveOutcome) (s : Sys), isSaving (st (savePhoto_settled o s)) = false)
  /\ (forall (evs : list Event) (o : SaveOutcome),
         isSaving (st (run evs)) = true ->
         inflight (run evs) <> []
         /\ isSaving (st (step (run evs) (FetchSettled o))) = false)
  /\ (forall (evs : list Event) (o : SaveOutcome),
         isSaving (st (run (evs ++ [ClickSave; FetchSettled o]))) = false).
Proof.
  split; [| split].
  - intros o s. now destruct o.
  - intros evs o H. destruct (save_inv_run evs) as [Hlen _].
    rewrite H in Hlen.
    destruct (inflight (run evs)) as [| i rest] eqn:Hi; [discriminate |].
    split; [discriminate |].
    simpl. rewrite Hi. now destruct o.
  - intros evs o.
    replace (evs ++ [ClickSave; FetchSettled o])
      with ((evs ++ [ClickSave]) ++ [FetchSettled o]) by now rewrite <- app_assoc.
    rewrite run_snoc.
    destruct (save_inv_run (evs ++ [ClickSave])) as [Hlen _].
    destruct (inflight (run (evs ++ [ClickSave]))) as [| i rest] eqn:Hi.
    + simpl. rewrite Hi.
      destruct (isSaving (st (run (evs ++ [ClickSave])))); [discriminate | reflexivity].
    + simpl. rewrite Hi. now destruct o.
Qed.

Lemma save_always_resets_isSaving_witness :
  isSaving (st (run saving_run)) = true
  /\ inflight (run saving_run) <> []
  /\ isSaving (st (step (run saving_run) (FetchSettled Threw))) = false.
Proof.
  split; [reflexivity |].
  apply (proj1 (proj2 save_always_resets_isSaving) saving_run Threw). reflexivity.
Defined.

(** C6.  When the endpoint answers [{success: false}] to the request in
    flight, the failure is logged and nothing else is lost: [isSaving] is
    false again, no file name is recorded, the captured image is the one held
    before the answer, and the Save button is enabled. *)
Theorem failed_save_is_recoverable (evs : list Event) (error : string) :
  inflight (run evs) <> [] ->
  let s := run evs in
  let s' := step s (FetchSettled (RespFailure error)) in
  isSaving (st s') = false
  /\ savedFileName (st s') = None
  /\ capturedImage (st s') = capturedImage (st s)
  /\ saveDisabled (st s') = false
  /\ outputs s' = outputs s ++ [ConsoleError "Failed to save image"].
Proof.
  intros Hne s s'. subst s s'.
  destruct (save_inv_run evs) as [Hlen Hname].
  destruct (inflight (run evs)) as [| i rest] eqn:Hi; [contradiction |].
  destruct (isSaving (st (run evs))) eqn:Hs; [| discriminate].
  specialize (Hname eq_refl).
  simpl. rewrite Hi. simpl. unfold saveDisabled. simpl. rewrite Hname.
  repeat split; reflexivity.
Qed.

Lemma failed_save_is_recoverable_witness :
  inflight (run saving_run) <> []
  /\ saveDisabled (st (run saving_run)) = true
  /\ saveDisabled
       (st (step (run saving_run) (FetchSettled (RespFailure "Failed to save image"))))
     = false.
Proof.
  split; [discriminate |]. split; [reflexivity |].
  apply (failed_save_is_recoverable saving_run "Failed to save image").
  discriminate.
Defined.

(** [savePhoto] itself does not look at [isSaving]: with a captured image it
    issues a request in whatever state it is called.  What keeps a second
    request from being issued is the disabled Save button. *)
Lemma savePhoto_does_not_test_isSaving (s : Sys) (image : DataURL) :
  capturedImage (st s) = Some image ->
  inflight (savePhoto (st s) s) = inflight s ++ [image]
  /\ outputs (savePhoto (st s) s) = outputs s ++ [Fetch "/api/save-image" image].
Proof. intros H. unfold savePhoto. rewrite H. split; reflexivity. Qed.

(** ** Capturing *)

(** C5.  A capture that succeeds (video and canvas elements present, 2d
    context obtained) sizes the canvas to the video element's [videoWidth] and
    [videoHeight] as they are at that moment, and the captured image is the
    data URL of that canvas.  When the video has a size (neither dimension is
    0) the captured image is a raster, of the video's width and height and
    holding the video's current frame; and whenever the captured image
    encodes a raster, the raster's width and height are the video's. *)
Theorem capture_has_video_dimensions
    (s : Sys) (video : HTMLVideoElement) (canvas : HTMLCanvasElement) :
  videoRef s = Some video ->
  canvasRef s = Some canvas ->
  context2d canvas = true ->
  exists canvas' : HTMLCanvasElement,
    canvasRef (capturePhoto s) = Some canvas'
    /\ width canvas' = videoWidth video
    /\ height canvas' = videoHeight video
    /\ capturedImage (st (capturePhoto s)) = Some (toDataURL canvas')
    /\ (videoWidth video <> 0%N ->
        videoHeight video <> 0%N ->
        capturedImage (st (capturePhoto s))
        = Some (PngData {| r_width := videoWidth video;
                           r_height := videoHeight video;
                           r_pixels := currentFrame video |}))
    /\ (forall r : Raster,
           capturedImage (st (capturePhoto s)) = Some (PngData r) ->
           r_width r = videoWidth video
           /\ r_height r = videoHeight video
           /\ r_pixels r = currentFrame video).
Proof.
  intros Hv Hc Hctx.
  exists {| width := videoWidth video; height := videoHeight video;
            context2d := context2d canvas; bitmap := currentFrame video |}.
  unfold capturePhoto. rewrite Hv, Hc. simpl. rewrite Hctx.
  assert (Hst : forall x, st (commit x) = st x).
  { intros x. unfold commit.
    destruct (phase x); auto. destruct (reviewMode (st x)); auto.
    destruct (videoRef x); auto. }
  assert (Hcv : forall x, canvasRef (commit x) = canvasRef x).
  { intros x. unfold commit.
    destruct (phase x); auto. destruct (reviewMode (st x)); auto.
    destruct (videoRef x); auto. }
  rewrite Hst, Hcv. simpl.
  split; [reflexivity |]. split; [reflexivity |]. split; [reflexivity |].
  split; [reflexivity |]. split.
  - intros Hw Hh. unfold toDataURL. simpl.
    apply N.eqb_neq in Hw. apply N.eqb_neq in Hh. now rewrite Hw, Hh.
  - intros r H. unfold toDataURL in H. simpl in H.
    destruct ((videoWidth video =? 0)%N || (videoHeight video =? 0)%N);
      [discriminate |].
    inversion H. repeat split.
Qed.

(** The photo of [saving_run]: a raster of 640 x 480 holding frame 7. *)
Lemma capture_has_video_dimensions_witness :
  capturedImage (st (capturePhoto before_capture))
  = Some (PngData {| r_width := 640; r_height := 480; r_pixels := Some 7 |})
  /\ exists canvas' : HTMLCanvasElement,
       canvasRef (capturePhoto before_capture) = Some canvas'
       /\ width canvas' = 640%N
       /\ height canvas' = 480%N
       /\ capturedImage (st (capturePhoto before_capture)) = Some (toDataURL canvas').
Proof.
  destruct (@capture_has_video_dimensions before_capture
              {| videoWidth := 640; videoHeight := 480; srcObject := Some 0;
                 currentFrame := Some 7 |}
              freshCanvas eq_refl eq_refl eq_refl)
    as (canvas' & H1 & H2 & H3 & H4 & H5 & _).
  split.
  - apply H5; discriminate.
  - exists canvas'. auto.
Defined.

(** ** The camera on unmount and during review *)

(** C2 (the unmount half fails).  Mount the component, let the camera be
    granted, unmount: the cleanup of the mount effect is the closure of the
    first render, where [stream] is still null, so it stops nothing and the
    one track of the stream stays live. *)
Theorem unmount_leaves_camera_running :
  let s := run [Mount; StreamGranted 1; Unmount] in
  phase s = Unmounted
  /\ stream (st s) = Some 0
  /\ media s = [[live]]
  /\ active_streams (media s) = 1.
Proof. repeat split. Qed.

(** A stream that is granted while the photo is under review finds no video
    element: it is neither bound nor stored, so the next [startVideo] cannot
    stop it, and two streams are active at once. *)
Lemma stream_granted_during_review_is_lost :
  let s := run [Mount; ClickTakePhoto; StreamGranted 1; ClickRetake; StreamGranted 1] in
  stream (st s) = Some 1
  /\ media s = [[live]; [live]]
  /\ active_streams (media s) = 2.
Proof. repeat split. Qed.

End WebcamCaptureProps.

(* ================================================================== *)
(** * Properties of the save-image route *)
(* ================================================================== *)

Module SaveImageProps.
Import Strings.Byte.
Import SaveImage.
Local Open Scope string_scope.

(** ** The data-URL prefix *)

Lemma strip_literal_app (p s : string) : strip_literal p (p ++ s) = Some s.
Proof.
  induction p as [| a p IH]; simpl; [reflexivity |].
  now rewrite Ascii.eqb_refl.
Qed.

(** A run of word characters followed by a character that is none is skipped
    whole. *)
Lemma skip_word_app (w : string) (c : ascii) (s : string) :
  word_string w = true ->
  is_word_char c = false ->
  skip_word (w ++ String c s) = String c s.
Proof.
  intros Hw Hc. induction w as [| a w IH]; simpl.
  - now rewrite Hc.
  - unfold word_string in Hw. simpl in Hw.
    apply andb_true_iff in Hw. destruct Hw as [Ha Hw].
    rewrite Ha. now apply IH.
Qed.

Lemma strip_data_url_prefix_matches (subtype payload : string) :
  subtype <> "" ->
  word_string subtype = true ->
  strip_data_url_prefix ("data:image/" ++ subtype ++ ";base64," ++ payload) = payload.
Proof.
  intros Hne Hw. unfold strip_data_url_prefix.
  rewrite strip_literal_app.
  destruct subtype as [| c subtype']; [contradiction |].
  assert (Hc : is_word_char c = true).
  { unfold word_string in Hw. simpl in Hw. now apply andb_true_iff in Hw. }
  change (String c subtype' ++ ";base64," ++ payload)
    with (String c (subtype' ++ ";base64," ++ payload)) at 1.
  cbv iota beta. rewrite Hc.
  change (";base64," ++ payload) with (String ";" ("base64," ++ payload)).
  rewrite skip_word_app; [| exact Hw | reflexivity].
  change (String ";" ("base64," ++ payload)) with (";base64," ++ payload).
  now rewrite strip_literal_app.
Qed.


(** The subtype must be made of word characters: the prefix of an SVG data
    URL is not removed. *)
Lemma strip_data_url_prefix_svg :
  strip_data_url_prefix "data:image/svg+xml;base64,QUJD"
  = "data:image/svg+xml;base64,QUJD".
Proof. reflexivity. Qed.

(** ** The file name *)




(** ** The handler *)




End SaveImageProps.

(* ================================================================== *)
(** * Properties of the face detection page *)
(* ================================================================== *)

Module FaceDetectionProps.
Import FaceDetection.

(** ** Runs *)

Lemma detection_run_snoc (s : Sys) (evs : list Event) (e : Event) :
  run_from s (evs ++ [e]) = step (run_from s evs) e.
Proof. unfold run_from. now rewrite fold_left_app. Qed.

Lemma detection_run_invariant (P : Sys -> Prop) :
  P initialSys ->
  (forall s e, P s -> P (step s e)) ->
  forall evs, P (run evs).
Proof.
  intros Hinit Hstep evs.
  induction evs as [| e evs IH] using rev_ind.
  - exact Hinit.
  - unfold run. rewrite detection_run_snoc. now apply Hstep.
Qed.

(** ** Order in a trace *)

Lemma preceded_nil (b a : Action) : preceded b a [].
Proof. intros [| x pre] post H; discriminate. Qed.

Lemma preceded_notin (b a : Action) (tr : list Action) :
  ~ In a tr -> preceded b a tr.
Proof.
  intros Hn pre post H. exfalso. apply Hn. rewrite H.
  apply in_or_app. right. now left.
Qed.

Lemma snoc_split (a a' : Action) (tr pre post : list Action) :
  tr ++ [a'] = pre ++ a :: post ->
  (post = [] /\ pre = tr /\ a = a')
  \/ (exists post', post = post' ++ [a'] /\ tr = pre ++ a :: post').
Proof.
  intros H.
  destruct post as [| x post] using rev_ind.
  - left. apply app_inj_tail in H. destruct H as [H1 H2]. auto.
  - right. exists post.
    change (pre ++ a :: post ++ [x]) with (pre ++ (a :: post) ++ [x]) in H.
    rewrite app_assoc in H. apply app_inj_tail in H. destruct H as [H1 H2].
    subst. auto.
Qed.

Lemma preceded_snoc_other (b a a' : Action) (tr : list Action) :
  preceded b a tr -> a' <> a -> preceded b a (tr ++ [a']).
Proof.
  intros Hp Hne pre post H.
  apply snoc_split in H. destruct H as [(_ & _ & Heq) | (post' & _ & Htr)].
  - congruence.
  - eapply Hp. exact Htr.
Qed.

Lemma preceded_snoc_after (b a a' : Action) (tr : list Action) :
  preceded b a tr -> In b tr -> preceded b a (tr ++ [a']).
Proof.
  intros Hp Hin pre post H.
  apply snoc_split in H. destruct H as [(_ & Hpre & _) | (post' & _ & Htr)].
  - now subst.
  - eapply Hp. exact Htr.
Qed.

Lemma filter_nonempty (A : Type) (f : A -> bool) (l : list A) :
  filter f l <> [] -> l <> [].
Proof. intros H Hl. apply H. now rewrite Hl. Qed.

(** ** The detection loop waits for the models and for playback *)

Ltac unfold_handlers :=
  unfold loadModels_fulfilled, loadModels_rejected, startVideo_fulfilled,
    startVideo_rejected, handleVideoPlay, update, detectionEffect, detectionCleanup,
    webcamEffect, startVideo, detectExpressions_resumed, detectExpressions,
    requestFrame, loadModels, cleanup, videoRef, canvasRef, is_mounted, notReady in *.

Ltac break_match :=
  match goal with
  | |- context [match ?x with _ => _ end] => destruct x eqn:?
  | H : context [match ?x with _ => _ end] |- _ => destruct x eqn:?
  end.

Ltac split_andb :=
  repeat match goal with
         | H : _ && _ = true |- _ => apply andb_true_iff in H; destruct H
         | H : filter _ _ <> [] |- _ => apply filter_nonempty in H
         end.

Ltac in_solver :=
  unfold modelsLoadedMsg, videoPlayingMsg, loopStartMsg in *;
  split_andb;
  rewrite ?in_app_iff in *; simpl in *;
  intuition (split_andb; try discriminate; try congruence; auto).

Ltac ord_solver :=
  repeat first
    [ assumption
    | apply preceded_nil
    | apply preceded_snoc_other;
      [ | unfold modelsLoadedMsg, videoPlayingMsg, loopStartMsg; discriminate ]
    | apply preceded_snoc_after; [ | solve [in_solver] ]
    | apply preceded_notin; solve [in_solver] ].

Lemma loop_inv_initial : loop_inv initialSys.
Proof.
  constructor; simpl; try apply preceded_nil; try discriminate; tauto.
Qed.

Lemma loop_inv_step (s : Sys) (e : Event) : loop_inv s -> loop_inv (step s e).
Proof.
  intros [J1 J2 J3 J4 J5 P1 P2 P3 P4 P5].
  destruct e; simpl; unfold_handlers; simpl;
    repeat (break_match; simpl in *; try discriminate);
    constructor; simpl; try solve [ord_solver]; try solve [in_solver];
    solve [intros [? | ?]; split_andb; in_solver].
Qed.

Lemma loop_inv_run (evs : list Event) : loop_inv (run evs).
Proof.
  apply detection_run_invariant; [apply loop_inv_initial | apply loop_inv_step].
Qed.

(** C3.  At every point of every run: while [modelsLoaded] is false (the
    models are loading, or loading failed) no detection has been called; every
    [getUserMedia] call comes after the models were loaded; the detection loop
    starts, and every detection is called, only after the models were loaded
    and after the video element reported playback. *)
Theorem detection_waits_for_models_and_playback (evs : list Event) :
  let s := run evs in
  (modelsLoaded (st s) = false -> ~ In DetectSingleFace (trace s))
  /\ preceded modelsLoadedMsg (GetUserMedia 640 480) (trace s)
  /\ preceded modelsLoadedMsg loopStartMsg (trace s)
  /\ preceded modelsLoadedMsg DetectSingleFace (trace s)
  /\ preceded videoPlayingMsg loopStartMsg (trace s)
  /\ preceded videoPlayingMsg DetectSingleFace (trace s).
Proof.
  intros s. destruct (loop_inv_run evs) as [J1 J2 J3 J4 J5 P1 P2 P3 P4 P5].
  fold s in J4, P1, P2, P3, P4, P5.
  split; [| auto 10].
  intros Hm Hin. destruct J4 as [Hl _]; [now left | congruence].
Qed.

(** The models fail to load although the video element plays: nothing is
    detected, however many frames pass. *)
Lemma detection_waits_for_models_and_playback_witness :
  modelsLoaded (st (run [Mount; VideoPlay; ModelsFailed; AnimationFrame])) = false
  /\ ~ In DetectSingleFace (trace (run [Mount; VideoPlay; ModelsFailed; AnimationFrame])).
Proof.
  split; [reflexivity |].
  apply (proj1 (detection_waits_for_models_and_playback
                  [Mount; VideoPlay; ModelsFailed; AnimationFrame])).
  reflexivity.
Defined.

(** ** The overlay *)

(** A cycle without a face paints nothing and clears nothing. *)
Lemma no_face_leaves_canvas (l : Loop) (s : Sys) :
  canvas (detectExpressions_resumed l None s) = canvas s.
Proof. reflexivity. Qed.

(** C7 (fails).  After a cycle that drew a box and a label, a cycle in which
    no face is detected leaves both on the overlay. *)
Theorem no_face_cycle_keeps_stale_overlay :
  let before := run face_seen in
  let after := step before (DetectionSettled None) in
  drawn (canvas after) = drawn (canvas before)
  /\ drawn (canvas after)
     = [DetectionBox sample_box 640 480;
        StrokeText {| l_expression := "happy"; l_percent := RInteger 82 |} 50;
        FillText {| l_expression := "happy"; l_percent := RInteger 82 |} 50]
  /\ In (ConsoleLog "No face detected") (trace after).
Proof.
  intros before after.
  split; [vm_compute; reflexivity |].
  split; [vm_compute; reflexivity |].
  vm_compute. auto 20.
Qed.

(** ** The order of Numbers *)

Lemma SFltb_key (x y : Number) :
  is_nan x = false -> is_nan y = false ->
  (SFltb x y = true <-> lex_lt (key x) (key y)).
Proof.
  intros Hx Hy. unfold SFltb, SFcompare.
  destruct x as [sx | sx | | sx mx ex], y as [sy | sy | | sy my ey];
    try discriminate; try destruct sx; try destruct sy; simpl;
    try (split; [discriminate | lia]);
    try (split; [lia | reflexivity]).
  all: change (Pos.compare_cont Eq mx my) with (Pos.compare mx my).
  all: destruct (Z.compare_spec ex ey); destruct (Pos.compare_spec mx my); simpl;
    try (split; [discriminate | lia]);
    try (split; [lia | reflexivity]).
Qed.

Lemma SFltb_false_key (x y : Number) :
  is_nan x = false -> is_nan y = false ->
  (SFltb x y = false <-> ~ lex_lt (key x) (key y)).
Proof.
  intros Hx Hy. pose proof (SFltb_key x y Hx Hy) as H.
  destruct (SFltb x y); split; intros; try reflexivity; try discriminate.
  - exfalso. tauto.
  - intros Hlt. apply H in Hlt. discriminate.
Qed.

Ltac to_keys :=
  repeat match goal with
         | H : SFltb ?x ?y = true |- _ => apply SFltb_key in H; [| assumption ..]
         | H : SFltb ?x ?y = false |- _ => apply SFltb_false_key in H; [| assumption ..]
         | |- SFltb ?x ?y = true => apply SFltb_key; [assumption .. |]
         | |- SFltb ?x ?y = false => apply SFltb_false_key; [assumption .. |]
         end;
  unfold lex_lt in *;
  repeat match goal with
         | |- context [key ?x] => destruct (key x) as [[? ?] ?]
         | H : context [key ?x] |- _ => destruct (key x) as [[? ?] ?]
         end;
  lia.

(** [<=] is transitive, [<] is irreflexive and asymmetric. *)
Lemma SFltb_false_trans (a b c : Number) :
  is_nan a = false -> is_nan b = false -> is_nan c = false ->
  SFltb b a = false -> SFltb c b = false -> SFltb c a = false.
Proof. intros Ha Hb Hc H1 H2. to_keys. Qed.

Lemma SFltb_true_false (a b c : Number) :
  is_nan a = false -> is_nan b = false -> is_nan c = false ->
  SFltb a b = true -> SFltb c b = false -> SFltb c a = false.
Proof. intros Ha Hb Hc H1 H2. to_keys. Qed.

Lemma SFltb_irrefl (a : Number) : is_nan a = false -> SFltb a a = false.
Proof. intros Ha. to_keys. Qed.

Lemma SFltb_asym (a b : Number) :
  is_nan a = false -> is_nan b = false -> SFltb a b = true -> SFltb b a = false.
Proof. intros Ha Hb H. to_keys. Qed.

(** ** Rounding a product *)

Section Rounding.
Local Open Scope Z_scope.

Lemma shr_1_m (mrs : shr_record) :
  0 <= shr_m mrs -> shr_m (shr_1 mrs) = shr_m mrs / 2.
Proof.
  destruct mrs as [m r s]. simpl. intros Hm.
  destruct m as [| p | p]; [reflexivity | | lia].
  rewrite <- Z.div2_div. destruct p; reflexivity.
Qed.

Lemma iter_shr_1_m (p : positive) : forall mrs : shr_record,
  0 <= shr_m mrs ->
  shr_m (iter_pos shr_1 p mrs) = shr_m mrs / 2 ^ Z.pos p.
Proof.
  assert (Hpos : forall k, 0 < 2 ^ Z.pos k) by (intros; apply Z.pow_pos_nonneg; lia).
  assert (Hnn : forall q mrs, 0 <= shr_m mrs ->
              shr_m (iter_pos shr_1 q mrs) = shr_m mrs / 2 ^ Z.pos q ->
              0 <= shr_m (iter_pos shr_1 q mrs)).
  { intros q mrs H0 H. rewrite H. apply Z.div_pos; [lia | apply Hpos]. }
  induction p as [p IH | p IH |]; intros mrs Hm; simpl iter_pos.
  - assert (H1 : 0 <= shr_m (shr_1 mrs)).
    { rewrite shr_1_m by lia. apply Z.div_pos; lia. }
    pose proof (IH _ H1) as E1.
    pose proof (Hnn _ _ H1 E1) as H2.
    rewrite (IH _ H2), E1, shr_1_m by lia.
    rewrite !Z.div_div by (try lia; apply Hpos).
    f_equal.
    replace (Z.pos p~1) with (1 + Z.pos p + Z.pos p) by lia.
    rewrite !Z.pow_add_r by lia. change (2 ^ 1) with 2. ring.
  - pose proof (IH _ Hm) as E1.
    pose proof (Hnn _ _ Hm E1) as H2.
    rewrite (IH _ H2), E1.
    rewrite !Z.div_div by (try lia; apply Hpos).
    f_equal.
    replace (Z.pos p~0) with (Z.pos p + Z.pos p) by lia.
    rewrite Z.pow_add_r by lia. ring.
  - rewrite shr_1_m by lia. reflexivity.
Qed.


Lemma digits2_pos_lower (m : positive) : 2 ^ (Z.pos (digits2_pos m) - 1) <= Z.pos m.
Proof.
  induction m as [m IH | m IH |]; simpl digits2_pos;
    rewrite ?Pos2Z.inj_succ; [| | simpl; lia].
  - replace (Z.succ (Z.pos (digits2_pos m)) - 1) with (1 + (Z.pos (digits2_pos m) - 1)) by lia.
    rewrite Z.pow_add_r by lia. change (2 ^ 1) with 2. lia.
  - replace (Z.succ (Z.pos (digits2_pos m)) - 1) with (1 + (Z.pos (digits2_pos m) - 1)) by lia.
    rewrite Z.pow_add_r by lia. change (2 ^ 1) with 2. lia.
Qed.

Lemma digits2_pos_upper (m : positive) : Z.pos m < 2 ^ Z.pos (digits2_pos m).
Proof.
  induction m as [m IH | m IH |]; simpl digits2_pos;
    rewrite ?Pos2Z.inj_succ, ?Z.pow_succ_r by lia; [lia | lia | simpl; lia].
Qed.

(** A number below [2^k] has at most [k] digits. *)
Lemma Zdigits2_le (m k : Z) : 0 <= k -> 0 <= m < 2 ^ k -> Zdigits2 m <= k.
Proof.
  intros Hk [H0 Hm]. destruct m as [| p | p]; simpl; [lia | | lia].
  destruct (Z_le_gt_dec (Z.pos (digits2_pos p)) k) as [| Hgt]; [assumption |].
  pose proof (digits2_pos_lower p) as Hl.
  assert (2 ^ k <= 2 ^ (Z.pos (digits2_pos p) - 1)) by (apply Z.pow_le_mono_r; lia).
  lia.
Qed.

(** What [shr_fexp] does to a nonnegative mantissa: nothing, or a shift to the
    exponent [fexp] asks for. *)
Lemma shr_fexp_spec (m e : Z) (l : location) :
  0 <= m ->
  let r := shr_fexp prec emax m e l in
  (snd r = e /\ fst r = shr_record_of_loc m l)
  \/ (e < snd r /\ snd r = fexp prec emax (Zdigits2 m + e)
      /\ shr_m (fst r) = m / 2 ^ (snd r - e)).
Proof.
  intros Hm r. subst r. unfold shr_fexp, shr.
  destruct (fexp prec emax (Zdigits2 m + e) - e) as [| p | p] eqn:Hn; simpl; auto.
  right. split; [lia |]. split; [lia |].
  rewrite iter_shr_1_m by (destruct l as [| []]; simpl; lia).
  replace (e + Z.pos p - e) with (Z.pos p) by lia.
  destruct l as [| []]; reflexivity.
Qed.

Lemma round_nearest_even_bounds (m : Z) (l : location) :
  m <= round_nearest_even m l <= m + 1.
Proof. destruct l as [| []]; simpl; try lia. destruct (Z.even m); lia. Qed.

Lemma fexp_le (k b : Z) : k - 53 <= b -> -1074 <= b -> fexp prec emax k <= b.
Proof. unfold fexp, SpecFloat.emin, prec, emax. lia. Qed.

Lemma pow2_split (a b : Z) : a <= b -> b <= 0 -> 2 ^ (- a) = 2 ^ (- b) * 2 ^ (b - a).
Proof. intros. rewrite <- Z.pow_add_r by lia. f_equal. lia. Qed.

(** Shifting keeps a mantissa under a bound that is scaled with it. *)
Lemma shr_fexp_bounded (c d m e : Z) (l : location) :
  0 <= m -> 0 <= d <= 1 -> 0 < c < 2 ^ 7 -> e <= -46 ->
  m <= c * 2 ^ (- e) + d ->
  let r := shr_fexp prec emax m e l in
  e <= snd r <= -46
  /\ 0 <= shr_m (fst r) <= c * 2 ^ (- snd r) + d
  /\ (snd r = e -> fst r = shr_record_of_loc m l).
Proof.
  intros Hm Hd Hc He Hb r.
  assert (Hpe : 2 ^ 46 <= 2 ^ (- e)) by (apply Z.pow_le_mono_r; lia).
  destruct (shr_fexp_spec m e l Hm) as [[H1 H2] | (H1 & H2 & H3)]; fold r in H1, H2 |- *.
  - rewrite H1, H2. split; [lia |]. split; [| auto].
    destruct l as [| []]; simpl; lia.
  - fold r in H3.
    assert (Hr : snd r <= -46).
    { rewrite H2. apply fexp_le; [| lia].
      assert (Zdigits2 m <= 7 - e); [| lia].
      apply Zdigits2_le; [lia |]. split; [lia |].
      replace (7 - e) with (7 + - e) by lia. rewrite Z.pow_add_r by lia.
      change (2 ^ 7) with 128 in *. nia. }
    split; [lia |]. split; [| lia].
    rewrite H3.
    assert (Hk : 0 < 2 ^ (snd r - e)) by (apply Z.pow_pos_nonneg; lia).
    split; [apply Z.div_pos; lia |].
    apply Z.div_le_upper_bound; [lia |].
    rewrite (pow2_split e (snd r)) in Hb by lia.
    assert (0 < 2 ^ (- snd r)) by (apply Z.pow_pos_nonneg; lia).
    nia.
Qed.


(** Rounding a product that is at most 100 gives a finite number that is at
    most 100 and one unit in its last place. *)
Lemma binary_round_aux_100 (M : positive) (E : Z) :
  E <= -46 -> Z.pos M <= 100 * 2 ^ (- E) ->
  match binary_round_aux prec emax false (Z.pos M) E loc_Exact with
  | S754_zero _ => True
  | S754_finite false m e => e <= -46 /\ Z.pos m <= 100 * 2 ^ (- e) + 1
  | _ => False
  end.
Proof.
  intros HE HM. unfold binary_round_aux.
  assert (H1 := shr_fexp_bounded 100 0 (Z.pos M) E loc_Exact).
  destruct (shr_fexp prec emax (Z.pos M) E loc_Exact) as [mrs1 e1].
  cbv zeta in H1. cbn [fst snd] in H1.
  assert (Hc : 0 < 100 < 2 ^ 7) by (change (2 ^ 7) with 128; lia).
  specialize (H1 ltac:(lia) ltac:(lia) Hc HE ltac:(lia)).
  destruct H1 as (He1 & Hm1 & _).
  pose proof (round_nearest_even_bounds (shr_m mrs1) (loc_of_shr_record mrs1)) as Hr.
  assert (H2 := shr_fexp_bounded 100 1
                  (round_nearest_even (shr_m mrs1) (loc_of_shr_record mrs1)) e1
                  loc_Exact).
  destruct (shr_fexp prec emax
              (round_nearest_even (shr_m mrs1) (loc_of_shr_record mrs1)) e1 loc_Exact)
    as [mrs2 e2].
  cbv zeta in H2. cbn [fst snd] in H2.
  specialize (H2 ltac:(lia) ltac:(lia) Hc ltac:(lia) ltac:(lia)).
  destruct H2 as (He2 & Hm2 & _).
  destruct (shr_m mrs2) as [| m | m]; [exact I | | lia].
  replace (e2 <=? emax - prec) with true
    by (symmetry; apply Z.leb_le; unfold emax, prec; lia).
  split; lia.
Qed.

Lemma SFleb_finite (m1 m2 : positive) (e1 e2 : Z) :
  SFleb (S754_finite false m1 e1) (S754_finite false m2 e2) = true ->
  e1 < e2 \/ (e1 = e2 /\ Z.pos m1 <= Z.pos m2).
Proof.
  unfold SFleb, SFcompare.
  change (Pos.compare_cont Eq m1 m2) with (Pos.compare m1 m2).
  destruct (Z.compare_spec e1 e2); destruct (Pos.compare_spec m1 m2);
    intros; try discriminate; lia.
Qed.

Lemma confidence_finite (s : bool) (m : positive) (e : Z) :
  confidence (S754_finite s m e) = true ->
  s = false /\ e <= -52 /\ Z.pos m <= 2 ^ (- e).
Proof.
  unfold confidence. intros H.
  apply andb_true_iff in H. destruct H as [H H1].
  apply andb_true_iff in H. destruct H as [Hv H0].
  destruct s; [discriminate |]. split; [reflexivity |].
  unfold valid_binary, bounded, canonical_mantissa in Hv.
  apply andb_true_iff in Hv. destruct Hv as [Hcan _].
  apply Z.eqb_eq in Hcan. unfold fexp, SpecFloat.emin, prec, emax in Hcan.
  assert (Hd : Z.pos (digits2_pos m) <= 53) by lia.
  pose proof (digits2_pos_upper m) as Hu.
  assert (Hm : Z.pos m < 2 ^ 53).
  { eapply Z.lt_le_trans; [exact Hu |]. apply Z.pow_le_mono_r; lia. }
  apply SFleb_finite in H1. destruct H1 as [He | [He Hle]].
  - split; [lia |].
    assert (2 ^ 53 <= 2 ^ (- e)) by (apply Z.pow_le_mono_r; lia). lia.
  - subst e. split; [lia |]. exact Hle.
Qed.

(** [Math_round] on a number with a fractional part: the integer [n] with
    [n - 1/2 <= x < n + 1/2], here scaled by [2 ^ (- e)]. *)
Lemma Math_round_nearest (s : bool) (m : positive) (e : Z) :
  e < 0 ->
  let v := if s then Z.neg m else Z.pos m in
  exists n : Z,
    Math_round (S754_finite s m e) = RInteger n
    /\ n * 2 ^ (- e) - 2 ^ (- e - 1) <= v < n * 2 ^ (- e) + 2 ^ (- e - 1).
Proof.
  intros He v. unfold Math_round. fold v.
  replace (0 <=? e) with false by (symmetry; apply Z.leb_gt; lia).
  rewrite Z.shiftr_div_pow2 by lia.
  exists ((v + 2 ^ (- e - 1)) / 2 ^ (- e)). split; [reflexivity |].
  assert (Hp : 0 < 2 ^ (- e)) by (apply Z.pow_pos_nonneg; lia).
  pose proof (Z.div_mod (v + 2 ^ (- e - 1)) (2 ^ (- e)) ltac:(lia)) as Hdm.
  pose proof (Z.mod_pos_bound (v + 2 ^ (- e - 1)) (2 ^ (- e)) Hp) as Hmod.
  assert (Hq : 2 ^ (- e) = 2 * 2 ^ (- e - 1)).
  { replace (- e) with (1 + (- e - 1)) at 1 by lia.
    rewrite Z.pow_add_r by lia. reflexivity. }
  nia.
Qed.

(** The percentage of a confidence is an integer from 0 to 100. *)
Lemma percent_of_confidence (x : Number) :
  confidence x = true ->
  exists n : Z, 0 <= n <= 100 /\ Math_round (SF64mul x number_100) = RInteger n.
Proof.
  intros Hx. destruct x as [s | s | | s m e].
  - exists 0. split; [lia | reflexivity].
  - destruct s; discriminate.
  - discriminate.
  - apply confidence_finite in Hx. destruct Hx as (-> & He & Hm).
    change (SF64mul (S754_finite false m e) number_100)
      with (binary_round_aux prec emax false (Z.pos (m * 7036874417766400)) (e + -46)
              loc_Exact).
    assert (Hb : Z.pos (m * 7036874417766400) <= 100 * 2 ^ (- (e + -46))).
    { rewrite Pos2Z.inj_mul.
      replace (- (e + -46)) with (- e + 46) by lia.
      rewrite Z.pow_add_r by lia. change (2 ^ 46) with 70368744177664.
      assert (0 < 2 ^ (- e)) by (apply Z.pow_pos_nonneg; lia). nia. }
    pose proof (binary_round_aux_100 (m * 7036874417766400) (e + -46)
                  ltac:(lia) Hb) as Hr.
    destruct (binary_round_aux prec emax false (Z.pos (m * 7036874417766400))
                (e + -46) loc_Exact) as [s' | s' | | s' m' e'];
      try contradiction.
    + exists 0. split; [lia | reflexivity].
    + destruct s'; [contradiction |]. destruct Hr as [He' Hm'].
      unfold Math_round.
      replace (0 <=? e') with false by (symmetry; apply Z.leb_gt; lia).
      rewrite Z.shiftr_div_pow2 by lia.
      assert (Hp : 0 < 2 ^ (- e' - 1)) by (apply Z.pow_pos_nonneg; lia).
      assert (Hq : 2 ^ (- e') = 2 * 2 ^ (- e' - 1)).
      { replace (- e') with (1 + (- e' - 1)) at 1 by lia.
        rewrite Z.pow_add_r by lia. reflexivity. }
      assert (Hbig : 4 <= 2 ^ (- e' - 1)).
      { change 4 with (2 ^ 2). apply Z.pow_le_mono_r; lia. }
      exists ((Z.pos m' + 2 ^ (- e' - 1)) / 2 ^ (- e')). split; [| reflexivity].
      split.
      * apply Z.div_pos; lia.
      * assert ((Z.pos m' + 2 ^ (- e' - 1)) / 2 ^ (- e') < 101); [| lia].
        apply Z.div_lt_upper_bound; lia.
Qed.

End Rounding.

(** ** The dominant expression *)

(** The fold keeps the last of the entries with the greatest score: nothing
    before it is greater, everything after it is smaller. *)
Lemma fold_pick_last_max (rest pre : Expressions) (acc : string * Number)
    (post : Expressions) :
  numbers (pre ++ acc :: post ++ rest) ->
  (forall p, In p pre -> SFltb (snd acc) (snd p) = false) ->
  (forall p, In p post -> SFltb (snd p) (snd acc) = true) ->
  exists pre' post',
    pre ++ acc :: post ++ rest = pre' ++ fold_left pick rest acc :: post'
    /\ (forall p, In p pre' -> SFltb (snd (fold_left pick rest acc)) (snd p) = false)
    /\ (forall p, In p post' -> SFltb (snd p) (snd (fold_left pick rest acc)) = true).
Proof.
  revert pre acc post.
  induction rest as [| b rest IH]; intros pre acc post Hnum Hpre Hpost.
  - exists pre, post. rewrite app_nil_r. auto.
  - assert (Hacc : is_nan (snd acc) = false).
    { apply Hnum. apply in_or_app. right. now left. }
    assert (Hb : is_nan (snd b) = false).
    { apply Hnum. apply in_or_app. right. right.
      apply in_or_app. right. now left. }
    simpl fold_left. unfold pick at 2 4 6.
    destruct (SFltb (snd b) (snd acc)) eqn:Hlt.
    + (* the accumulator is greater: it stays *)
      destruct (IH pre acc (post ++ [b])) as (pre' & post' & Heq & H1 & H2).
      * now rewrite <- app_assoc.
      * exact Hpre.
      * intros p Hp. apply in_app_or in Hp. destruct Hp as [Hp | [Hp | []]].
        -- now apply Hpost.
        -- now subst.
      * exists pre', post'. rewrite <- app_assoc in Heq. auto.
    + (* the new entry is at least as great: it replaces the accumulator *)
      destruct (IH (pre ++ acc :: post) b []) as (pre' & post' & Heq & H1 & H2).
      * now rewrite <- app_assoc.
      * intros p Hp.
        assert (Hp' : is_nan (snd p) = false).
        { apply Hnum. apply in_app_or in Hp. apply in_or_app.
          destruct Hp as [Hp | [Hp | Hp]]; [now left | right; now left |].
          right. right. apply in_or_app. now left. }
        apply in_app_or in Hp. destruct Hp as [Hp | [Hp | Hp]].
        -- apply (@SFltb_false_trans (snd p) (snd acc) (snd b)); auto.
        -- now subst.
        -- apply (@SFltb_true_false (snd p) (snd acc) (snd b)); auto.
      * intros p [].
      * exists pre', post'. rewrite <- app_assoc in Heq. auto.
Qed.

Lemma confidence_not_nan (x : Number) : confidence x = true -> is_nan x = false.
Proof. destruct x; [reflexivity | reflexivity | discriminate | reflexivity]. Qed.

Lemma confidences_numbers (entries : Expressions) :
  confidences entries -> numbers entries.
Proof. intros H e He. apply confidence_not_nan. now apply H. Qed.

(** C4 as stated fails: on equal scores the first entry does not win.  For
    [{happy: 0.5, sad: 0.5}] the label names the second entry. *)
Lemma tie_goes_to_the_later_entry :
  confidences tied_expressions
  /\ option_map fst (first_maximal tied_expressions) = Some "happy"%string
  /\ expression_text tied_expressions = Some "sad: 50%"%string
  /\ expression_text tied_expressions <> Some "happy: 50%"%string.
Proof.
  split.
  - intros e [<- | [<- | []]]; reflexivity.
  - split; [reflexivity |]. split; [reflexivity | discriminate].
Qed.

(** C4, amended.  For a non-empty table of confidences the label names an
    entry with the greatest score -- of several with exactly that score, the
    last in iteration order -- followed by [": "], the score times 100 rounded
    to an integer, which lies between 0 and 100, and ["%"]; for
    [{happy: 0.82, neutral: 0.10, sad: 0.08}] it is ["happy: 82%"]. *)
Theorem label_names_last_maximal_expression (entries : Expressions) :
  entries <> [] ->
  confidences entries ->
  exists (name : string) (score : Number) (pre post : Expressions) (percent : Z),
    dominantExpression entries = Some (name, score)
    /\ entries = pre ++ (name, score) :: post
    /\ (forall e, In e entries -> SFltb score (snd e) = false)
    /\ (forall e, In e post -> SFltb (snd e) score = true)
    /\ Math_round (SF64mul score number_100) = RInteger percent
    /\ (0 <= percent <= 100)%Z
    /\ expression_text entries
       = Some (name ++ ": " ++ NilZero.string_of_int (Z.to_int percent) ++ "%")%string
    /\ expression_text sample_expressions = Some "happy: 82%"%string.
Proof.
  intros Hne Hconf.
  destruct entries as [| first rest]; [contradiction |].
  pose proof (confidences_numbers _ Hconf) as Hnum.
  destruct (fold_pick_last_max rest [] first []) as (pre & post & Heq & Hpre & Hpost).
  { exact Hnum. }
  { intros p []. }
  { intros p []. }
  simpl app in Heq.
  set (r := fold_left pick rest first) in *.
  assert (Hin : In r (first :: rest)).
  { rewrite Heq. apply in_or_app. right. now left. }
  assert (Hr : is_nan (snd r) = false) by now apply Hnum.
  destruct (percent_of_confidence (snd r) (Hconf r Hin)) as (n & Hn & Hround).
  exists (fst r), (snd r), pre, post, n.
  assert (Hdom : dominantExpression (first :: rest) = Some (fst r, snd r)).
  { unfold dominantExpression. fold r. now destruct r. }
  split; [exact Hdom |].
  split; [rewrite Heq at 1; now destruct r |].
  split.
  { intros e He. rewrite Heq in He. apply in_app_or in He.
    destruct He as [He | [He | He]].
    - now apply Hpre.
    - subst e. now apply SFltb_irrefl.
    - apply SFltb_asym; auto.
      apply Hnum. rewrite Heq. apply in_or_app. right. now right. }
  split; [exact Hpost |].
  split; [exact Hround |].
  split; [exact Hn |].
  split; [| reflexivity].
  unfold expression_text. rewrite Hdom.
  unfold Label_text, label_of. cbn [fst snd l_percent l_expression].
  rewrite Hround. unfold Number_toString.
  replace (Z.abs n <=? 2 ^ 53)%Z with true; [reflexivity |].
  symmetry. apply Z.leb_le. change (2 ^ 53)%Z with 9007199254740992%Z. lia.
Qed.

Lemma label_names_last_maximal_expression_witness :
  exists (name : string) (score : Number) (pre post : Expressions) (percent : Z),
    dominantExpression tied_expressions = Some (name, score)
    /\ tied_expressions = pre ++ (name, score) :: post
    /\ (forall e, In e tied_expressions -> SFltb score (snd e) = false)
    /\ (forall e, In e post -> SFltb (snd e) score = true)
    /\ Math_round (SF64mul score number_100) = RInteger percent
    /\ (0 <= percent <= 100)%Z
    /\ expression_text tied_expressions
       = Some (name ++ ": " ++ NilZero.string_of_int (Z.to_int percent) ++ "%")%string
    /\ expression_text sample_expressions = Some "happy: 82%"%string.
Proof.
  apply (label_names_last_maximal_expression tied_expressions).
  - discriminate.
  - intros e [<- | [<- | []]]; reflexivity.
Defined.

End FaceDetectionProps.

(* ================================================================== *)
(** * More about the capture page *)
(* ================================================================== *)

Module WebcamCaptureMore.
Import WebcamCapture WebcamCaptureProps WebcamCaptureView.

Lemma count_app (A : Type) (f : A -> bool) (l1 l2 : list A) :
  count f (l1 ++ l2) = count f l1 + count f l2.
Proof. unfold count. now rewrite filter_app, length_app. Qed.

(** ** A saved photo *)

(** When the endpoint answers [{success: true, fileName}] with a non-empty
    name to the request in flight, the name is recorded, the photo is kept,
    and Save is disabled: a click on it changes nothing any more.  If the page
    is still in review mode the name is shown as [Saved as: <fileName>] and
    the Save button reads [Saved!]; if Retake was clicked meanwhile the page
    is in camera mode, which renders neither the banner nor the button. *)
Theorem successful_save_locks_trigger (evs : list Event) (fileName : string) :
  inflight (run evs) <> [] ->
  fileName <> EmptyString ->
  savedFileName (st (step (run evs) (FetchSettled (RespSuccess fileName))))
  = Some fileName
  /\ isSaving (st (step (run evs) (FetchSettled (RespSuccess fileName)))) = false
  /\ capturedImage (st (step (run evs) (FetchSettled (RespSuccess fileName))))
     = capturedImage (st (run evs))
  /\ saveDisabled (st (step (run evs) (FetchSettled (RespSuccess fileName)))) = true
  /\ saveButtonText (st (step (run evs) (FetchSettled (RespSuccess fileName))))
     = (if reviewMode (st (run evs)) then Some "Saved!"%string else None)
  /\ savedBanner (st (step (run evs) (FetchSettled (RespSuccess fileName))))
     = (if reviewMode (st (run evs))
        then Some ("Saved as: " ++ fileName)%string else None)
  /\ step (step (run evs) (FetchSettled (RespSuccess fileName))) ClickSave
     = step (run evs) (FetchSettled (RespSuccess fileName)).
Proof.
  intros Hne Hf.
  destruct (save_inv_run evs) as [Hlen _].
  destruct (inflight (run evs)) as [| i rest] eqn:Hi; [contradiction |].
  cbn [step]. rewrite Hi.
  destruct fileName as [| c f]; [contradiction |].
  split; [reflexivity |]. split; [reflexivity |]. split; [reflexivity |].
  split; [reflexivity |].
  split; [| split].
  - unfold saveButtonText, reviewMode. cbn -[run].
    now destruct (capturedImage (st (run evs))).
  - unfold savedBanner, reviewMode. cbn -[run].
    now destruct (capturedImage (st (run evs))).
  - cbn -[run]. unfold saveDisabled. cbn -[run].
    rewrite ?orb_true_r, ?andb_false_r. reflexivity.
Qed.

(** The answer of the specification's example, to the save of [saving_run]
    and to the same save after a Retake. *)
Lemma successful_save_locks_trigger_witness :
  (saveDisabled
     (st (step (run saving_run) (FetchSettled (RespSuccess "a1b2c3d4e5f6a7b8.png"))))
   = true
   /\ saveButtonText
        (st (step (run saving_run) (FetchSettled (RespSuccess "a1b2c3d4e5f6a7b8.png"))))
      = Some "Saved!"%string
   /\ savedBanner
        (st (step (run saving_run) (FetchSettled (RespSuccess "a1b2c3d4e5f6a7b8.png"))))
      = Some "Saved as: a1b2c3d4e5f6a7b8.png"%string)
  /\ (saveButtonText
        (st (step (run retaken_while_saving)
               (FetchSettled (RespSuccess "a1b2c3d4e5f6a7b8.png"))))
      = None
      /\ savedBanner
           (st (step (run retaken_while_saving)
                  (FetchSettled (RespSuccess "a1b2c3d4e5f6a7b8.png"))))
         = None).
Proof.
  pose proof (successful_save_locks_trigger saving_run "a1b2c3d4e5f6a7b8.png"
                ltac:(vm_compute; discriminate) ltac:(discriminate))
    as (_ & _ & _ & H4 & H5 & H6 & _).
  pose proof (successful_save_locks_trigger retaken_while_saving "a1b2c3d4e5f6a7b8.png"
                ltac:(vm_compute; discriminate) ltac:(discriminate))
    as (_ & _ & _ & _ & K5 & K6 & _).
  split.
  - split; [exact H4 |]. split; [exact H5 | exact H6].
  - split; [exact K5 | exact K6].
Defined.

(** ** Requests are made on user action only *)

Lemma requests_step (s : Sys) (e : Event) :
  count is_GetUserMedia (outputs (step s e)) + mounted_once s
  <= count is_GetUserMedia (outputs s) + mounted_once (step s e)
     + (if is_ClickRetake e then 1 else 0)
  /\ count is_Fetch (outputs (step s e))
     <= count is_Fetch (outputs s) + (if is_ClickSave e then 1 else 0).
Proof.
  unfold mounted_once.
  destruct e; simpl; unfold_handlers; simpl;
    repeat (break_match; simpl in *; try discriminate);
    rewrite ?count_app; simpl; unfold count; simpl; split; lia.
Qed.

(** The page calls [getUserMedia] once for its mount and otherwise once
    per click on Retake, and calls [fetch] at most once per click on Save:
    no request is made without the user. *)
Theorem requests_only_on_user_action (evs : list Event) :
  count is_GetUserMedia (outputs (run evs)) <= 1 + count is_ClickRetake evs
  /\ count is_Fetch (outputs (run evs)) <= count is_ClickSave evs.
Proof.
  assert (H : count is_GetUserMedia (outputs (run evs))
              <= mounted_once (run evs) + count is_ClickRetake evs
              /\ count is_Fetch (outputs (run evs)) <= count is_ClickSave evs).
  { induction evs as [| e evs IH] using rev_ind.
    - split; apply Nat.le_0_l.
    - rewrite run_snoc, !count_app.
      destruct (requests_step (run evs) e) as [H1 H2].
      destruct IH as [IH1 IH2].
      assert (mounted_once (run evs) <= 1)
        by (unfold mounted_once; destruct (phase (run evs)); lia).
      unfold count at 3 6. simpl.
      destruct (is_ClickRetake e), (is_ClickSave e); simpl; lia. }
  destruct H as [H1 H2]. split; [| exact H2].
  assert (mounted_once (run evs) <= 1)
    by (unfold mounted_once; destruct (phase (run evs)); lia).
  lia.
Qed.

(** ** The elements while mounted *)

Lemma dom_inv_step (s : Sys) (e : Event) : dom_inv s -> dom_inv (step s e).
Proof.
  unfold dom_inv. intros H.
  destruct e; simpl; unfold_handlers; simpl;
    repeat (break_match; simpl in *; try discriminate);
    repeat match goal with
           | H : _ /\ _ |- _ => destruct H
           | H : exists _, _ |- _ => destruct H
           end;
    subst; simpl in *; try congruence;
    repeat split; eauto; try congruence.
Qed.

Lemma dom_inv_run (evs : list Event) : dom_inv (run evs).
Proof. apply run_invariant; [exact I | apply dom_inv_step]. Qed.

(** In camera mode on the mounted page a click on Take Photo always
    takes one: both elements exist, the canvas takes the size and the frame of
    the video, the data URL of the canvas becomes [capturedImage], no file
    name is shown, and the page is in review mode, where the video element is
    gone and Save is enabled unless a save is in flight. *)
Theorem take_photo_works_in_camera_mode (evs : list Event) :
  phase (run evs) = Mounted ->
  reviewMode (st (run evs)) = false ->
  exists (video : HTMLVideoElement) (canvas : HTMLCanvasElement),
    videoRef (run evs) = Some video
    /\ canvasRef (run evs) = Some canvas
    /\ capturedImage (st (step (run evs) ClickTakePhoto))
       = Some (toDataURL {| width := videoWidth video; height := videoHeight video;
                            context2d := true; bitmap := currentFrame video |})
    /\ savedFileName (st (step (run evs) ClickTakePhoto)) = None
    /\ reviewMode (st (step (run evs) ClickTakePhoto)) = true
    /\ videoRef (step (run evs) ClickTakePhoto) = None
    /\ saveDisabled (st (step (run evs) ClickTakePhoto)) = isSaving (st (run evs)).
Proof.
  intros Hp Hr.
  pose proof (dom_inv_run evs) as H. unfold dom_inv in H.
  rewrite Hp, Hr in H. destruct H as [(c & Hc & Hctx) (v & Hv)].
  exists v, c. split; [exact Hv |]. split; [exact Hc |].
  cbn [step]. unfold is_mounted. rewrite Hp, Hr. cbn [andb negb].
  unfold capturePhoto. rewrite Hv, Hc. cbn [context2d]. rewrite Hctx.
  unfold commit. cbn -[run]. rewrite Hp. cbn -[run].
  unfold saveDisabled. cbn -[run]. rewrite orb_false_r.
  repeat split.
Qed.

Lemma take_photo_works_in_camera_mode_witness :
  exists (video : HTMLVideoElement) (canvas : HTMLCanvasElement),
    videoRef (run [Mount; StreamGranted 1; VideoFrame 640 480 7]) = Some video
    /\ canvasRef (run [Mount; StreamGranted 1; VideoFrame 640 480 7]) = Some canvas
    /\ capturedImage
         (st (step (run [Mount; StreamGranted 1; VideoFrame 640 480 7]) ClickTakePhoto))
       = Some (toDataURL {| width := videoWidth video; height := videoHeight video;
                            context2d := true; bitmap := currentFrame video |})
    /\ savedFileName
         (st (step (run [Mount; StreamGranted 1; VideoFrame 640 480 7]) ClickTakePhoto))
       = None
    /\ reviewMode
         (st (step (run [Mount; StreamGranted 1; VideoFrame 640 480 7]) ClickTakePhoto))
       = true
    /\ videoRef (step (run [Mount; StreamGranted 1; VideoFrame 640 480 7]) ClickTakePhoto)
       = None
    /\ saveDisabled
         (st (step (run [Mount; StreamGranted 1; VideoFrame 640 480 7]) ClickTakePhoto))
       = isSaving (st (run [Mount; StreamGranted 1; VideoFrame 640 480 7])).
Proof.
  apply (take_photo_works_in_camera_mode [Mount; StreamGranted 1; VideoFrame 640 480 7]);
    vm_compute; reflexivity.
Defined.

(** ** Edge cases of capturePhoto *)

(** What [capturePhoto] does off the main path: with the video or the
    canvas element missing it does nothing at all; with no 2d context it
    stops after resizing the canvas and no state cell changes; and a video
    that has no size yet gives the data URL [data:,] of an empty canvas, which
    is stored as the captured image like any other. *)
Theorem capture_edge_cases (s : Sys) :
  (videoRef s = None \/ canvasRef s = None -> capturePhoto s = s)
  /\ (forall video canvas,
         videoRef s = Some video -> canvasRef s = Some canvas ->
         context2d canvas = false ->
         st (capturePhoto s) = st s
         /\ videoRef (capturePhoto s) = videoRef s
         /\ canvasRef (capturePhoto s)
            = Some {| width := videoWidth video; height := videoHeight video;
                      context2d := false; bitmap := None |})
  /\ (forall video canvas,
         videoRef s = Some video -> canvasRef s = Some canvas ->
         context2d canvas = true ->
         videoWidth video = 0%N \/ videoHeight video = 0%N ->
         capturedImage (st (capturePhoto s)) = Some EmptyData
         /\ reviewMode (st (capturePhoto s)) = true
         /\ savedFileName (st (capturePhoto s)) = None).
Proof.
  split; [| split].
  - intros [H | H]; unfold capturePhoto; rewrite H; [reflexivity |].
    now destruct (videoRef s).
  - intros video canvas Hv Hc Hctx. unfold capturePhoto.
    rewrite Hv, Hc. cbn [context2d]. rewrite Hctx. cbn. rewrite Hv. auto.
  - intros video canvas Hv Hc Hctx Hz. unfold capturePhoto.
    rewrite Hv, Hc. cbn [context2d]. rewrite Hctx.
    assert (Hst : forall x, st (commit x) = st x).
    { intros x. unfold commit.
      destruct (phase x); auto. destruct (reviewMode (st x)); auto.
      destruct (videoRef x); auto. }
    rewrite Hst. cbn. unfold toDataURL. cbn.
    replace ((videoWidth video =? 0)%N || (videoHeight video =? 0)%N) with true.
    + auto.
    + symmetry. apply orb_true_iff.
      destruct Hz as [Hz | Hz]; rewrite Hz; auto.
Qed.

Lemma capture_edge_cases_witness :
  capturedImage (st (capturePhoto (run [Mount]))) = Some EmptyData
  /\ reviewMode (st (capturePhoto (run [Mount]))) = true
  /\ savedFileName (st (capturePhoto (run [Mount]))) = None.
Proof.
  apply (proj2 (proj2 (capture_edge_cases (run [Mount]))) freshVideo freshCanvas);
    try reflexivity.
  now left.
Defined.

(** ** Which tracks startVideo stops *)

Lemma stopTracks_other (id j : nat) (m : Media) :
  j <> id -> nth j (stopTracks id m) [] = nth j m [].
Proof.
  revert id j; induction m as [| ts m IH]; intros [| id] [| j] H; simpl; auto.
  all: try contradiction; try (destruct j; reflexivity).
Qed.

Lemma stop_all_ended (ts : list ReadyState) :
  stop_all ts = repeat ended (List.length ts).
Proof. induction ts as [| t ts IH]; simpl; [reflexivity | now rewrite IH]. Qed.

(** [startVideo] stops every track of the stream its render holds and
    touches no other stream: the table keeps its length, every other stream
    its tracks, the state its cells, and one [getUserMedia] call is added. *)
Theorem startVideo_stops_only_held_stream (snap : State) (s : Sys) :
  (forall id, stream snap = Some id ->
              nth id (media (startVideo snap s)) []
              = repeat ended (List.length (nth id (media s) [])))
  /\ (forall j, stream snap <> Some j ->
                nth j (media (startVideo snap s)) [] = nth j (media s) [])
  /\ List.length (media (startVideo snap s)) = List.length (media s)
  /\ st (startVideo snap s) = st s
  /\ pendingMedia (startVideo snap s) = S (pendingMedia s)
  /\ outputs (startVideo snap s) = outputs s ++ [GetUserMedia 640 480].
Proof.
  unfold startVideo. destruct (stream snap) as [held |]; simpl.
  - split; [| split; [| split; [| auto]]].
    + intros id H. inversion H; subst. now rewrite stopTracks_nth, stop_all_ended.
    + intros j H. apply stopTracks_other. congruence.
    + apply stopTracks_length.
  - repeat split; auto. intros id H. discriminate.
Qed.

(** ** A stream that arrives when there is no video element *)

Lemma dropped_step (id : MediaStream) (tracks : nat) (s : Sys) (e : Event) :
  dropped id tracks s -> dropped id tracks (step s e).
Proof.
  unfold dropped. intros (Hp & Hlt & Hnth & Hst).
  assert (Hstop : forall j, stream (st s) = Some j ->
                   nth id (stopTracks j (media s)) [] = repeat live tracks).
  { intros j Hj. rewrite stopTracks_other; [exact Hnth | congruence]. }
  destruct e; simpl; unfold_handlers; simpl;
    repeat (break_match; simpl in *; try discriminate);
    try contradiction;
    rewrite ?stopTracks_length, ?length_app; simpl;
    repeat split; auto; try discriminate; try lia;
    try (rewrite app_nth1 by lia; assumption);
    try (intros Heq; inversion Heq; lia);
    try (rewrite stopTracks_other; [assumption | congruence]);
    congruence.
Qed.

Lemma held_inv_step (s : Sys) (e : Event) : held_inv s -> held_inv (step s e).
Proof.
  unfold held_inv. intros [H1 H2].
  destruct e; simpl; unfold_handlers; simpl;
    repeat (break_match; simpl in *; try discriminate);
    rewrite ?stopTracks_length, ?length_app; simpl;
    split; auto; try discriminate;
    try (intros id Hid; inversion Hid; subst; lia);
    try (intros id Hid; specialize (H1 id Hid); lia);
    try exact H1;
    try (intros Hp; first [congruence | specialize (H2 Hp); congruence]);
    try (intros id Hid; apply H1; congruence).
Qed.

Lemma held_inv_run (evs : list Event) : held_inv (run evs).
Proof.
  apply run_invariant; [| apply held_inv_step].
  split; [discriminate | reflexivity].
Qed.

(** A camera stream that is granted while there is no video element (the
    photo is under review, or the page is unmounted) is neither bound nor
    stored, and nothing that happens later stops it: its tracks stay live and
    the state never holds it. *)
Theorem stream_granted_without_video_is_never_stopped
    (evs : list Event) (tracks : nat) (later : list Event) :
  pendingMedia (run evs) <> 0 ->
  videoRef (run evs) = None ->
  st (step (run evs) (StreamGranted tracks)) = st (run evs)
  /\ media (step (run evs) (StreamGranted tracks))
     = media (run evs) ++ [repeat live tracks]
  /\ nth (List.length (media (run evs)))
         (media (run_from (step (run evs) (StreamGranted tracks)) later)) []
     = repeat live tracks
  /\ stream (st (run_from (step (run evs) (StreamGranted tracks)) later))
     <> Some (List.length (media (run evs))).
Proof.
  intros Hpend Hv.
  destruct (held_inv_run evs) as [Hheld Hnot].
  revert Hpend Hv Hheld Hnot. generalize (run evs). intros s Hpend Hv Hheld Hnot.
  assert (Hp : phase s <> NotMounted) by (intros Hp; apply Hpend; auto).
  destruct (pendingMedia s) as [| n] eqn:Hn; [contradiction |].
  cbn [step]. rewrite Hn. unfold startVideo_fulfilled. cbn. rewrite Hv.
  split; [reflexivity |]. split; [reflexivity |].
  assert (Hd : dropped (List.length (media s)) tracks
                 (set_media (media s ++ [repeat live tracks]) (set_pendingMedia n s))).
  { unfold dropped. cbn. rewrite length_app. cbn.
    split; [exact Hp |]. split; [lia |]. split.
    - rewrite app_nth2 by lia. now rewrite Nat.sub_diag.
    - intros H. apply Hheld in H. lia. }
  revert Hd. generalize (List.length (media s)).
  generalize (set_media (media s ++ [repeat live tracks]) (set_pendingMedia n s)).
  induction later as [| e later IH]; intros x id Hx.
  - destruct Hx as (_ & _ & Hnth & Hs). auto.
  - cbn [run_from fold_left]. apply IH. now apply dropped_step.
Qed.

Lemma stream_granted_without_video_is_never_stopped_witness :
  nth (List.length (media (run early_photo)))
      (media (run_from (step (run early_photo) (StreamGranted 1))
                [ClickRetake; StreamGranted 1; Unmount])) []
  = repeat live 1
  /\ stream (st (run_from (step (run early_photo) (StreamGranted 1))
                   [ClickRetake; StreamGranted 1; Unmount]))
     <> Some (List.length (media (run early_photo))).
Proof.
  apply (proj2 (proj2 (stream_granted_without_video_is_never_stopped early_photo 1
                         [ClickRetake; StreamGranted 1; Unmount]
                         ltac:(vm_compute; discriminate)
                         ltac:(vm_compute; reflexivity)))).
Defined.

End WebcamCaptureMore.

(* ================================================================== *)
(** * More about the save-image route *)
(* ================================================================== *)

Module SaveImageMore.
Import Strings.Byte.
Import SaveImage SaveImageProps SaveImageView.
Local Open Scope string_scope.

(** ** File names *)

Lemma bytes_of_hex_of_byte (b : byte) (s : string) :
  bytes_of_hex (hex_of_byte b ++ s)
  = match bytes_of_hex s with Some bs => Some (b :: bs) | None => None end.
Proof.
  destruct b; cbn -[bytes_of_hex]; cbn [bytes_of_hex];
    destruct (bytes_of_hex s); reflexivity.
Qed.

Lemma bytes_of_hex_toString_hex (bs : list byte) :
  bytes_of_hex (toString_hex bs) = Some bs.
Proof.
  induction bs as [| b bs IH]; [reflexivity |].
  cbn [toString_hex]. now rewrite bytes_of_hex_of_byte, IH.
Qed.

Lemma length_append (s1 s2 : string) :
  String.length (s1 ++ s2) = String.length s1 + String.length s2.
Proof. induction s1 as [| c s1 IH]; cbn; [reflexivity | now rewrite IH]. Qed.

Lemma append_cancel_r (t s1 s2 : string) : s1 ++ t = s2 ++ t -> s1 = s2.
Proof.
  revert s2. induction s1 as [| c s1 IH]; intros s2 H.
  - destruct s2 as [| d s2]; [reflexivity |].
    exfalso. apply (f_equal String.length) in H.
    cbn in H. rewrite length_append in H. lia.
  - destruct s2 as [| d s2].
    + exfalso. apply (f_equal String.length) in H.
      cbn in H. rewrite length_append in H. lia.
    + cbn in H. inversion H. f_equal. now apply IH.
Qed.

(** The file name determines the random bytes it was made of: the bytes can
    be read back from the hexadecimal digits, so two requests get the same
    file name, and the second overwrites the file of the first, only when
    [randomBytes] returned the same bytes twice. *)
Theorem file_names_do_not_collide (a b : list byte) :
  (bytes_of_hex (toString_hex a) = Some a)
  /\ (toString_hex a ++ ".png" = toString_hex b ++ ".png" -> a = b).
Proof.
  split; [apply bytes_of_hex_toString_hex |].
  intros H. apply append_cancel_r in H.
  apply (f_equal bytes_of_hex) in H.
  rewrite !bytes_of_hex_toString_hex in H. now inversion H.
Qed.

(** ** What the pattern matches *)

Lemma append_assoc (a b c : string) : (a ++ b) ++ c = a ++ b ++ c.
Proof. induction a as [| x a IH]; cbn; [reflexivity | now rewrite IH]. Qed.

Lemma strip_literal_Some (p s r : string) :
  strip_literal p s = Some r -> s = p ++ r.
Proof.
  revert s. induction p as [| a p IH]; intros s H; cbn in *.
  - now inversion H.
  - destruct s as [| b s]; [discriminate |].
    destruct (Ascii.eqb_spec a b); [| discriminate].
    subst. f_equal. now apply IH.
Qed.

Lemma skip_word_split (s : string) :
  exists w, s = w ++ skip_word s /\ word_string w = true.
Proof.
  induction s as [| c s (w & Hs & Hw)]; cbn.
  - exists "". auto.
  - destruct (is_word_char c) eqn:Hc.
    + exists (String c w). cbn. split; [now rewrite <- Hs |].
      unfold word_string in *. cbn. now rewrite Hc.
    + exists "". auto.
Qed.

(** A matching string is changed by the replacement: it gets shorter. *)
Lemma image_data_url_is_stripped (image : string) :
  is_image_data_url image -> strip_data_url_prefix image <> image.
Proof.
  intros (subtype & payload & Hne & Hw & ->) H.
  rewrite strip_data_url_prefix_matches in H by assumption.
  apply (f_equal String.length) in H.
  rewrite !length_append in H. cbn in H. lia.
Qed.

(** What the replacement of the pattern [/^data:image\/\w+;base64,/] by the
    empty string does to every string: a string of the form
    [data:image/<subtype>;base64,<payload>], with a non-empty subtype of word
    characters, is cut down to its payload; any other string, the text
    [data:,] or an SVG data URL for instance, is left as it is and goes to the
    base64 decoder whole. *)
Theorem strip_data_url_prefix_spec (image : string) :
  (exists subtype payload,
      subtype <> "" /\ word_string subtype = true
      /\ image = "data:image/" ++ subtype ++ ";base64," ++ payload
      /\ strip_data_url_prefix image = payload)
  \/ (~ is_image_data_url image /\ strip_data_url_prefix image = image).
Proof.
  assert (Hkeep : strip_data_url_prefix image = image ->
                  ~ is_image_data_url image /\ strip_data_url_prefix image = image).
  { intros H. split; [| exact H]. intros Hd.
    now apply image_data_url_is_stripped in Hd. }
  destruct (strip_literal "data:image/" image) as [rest |] eqn:Hlit.
  2: { right. apply Hkeep. unfold strip_data_url_prefix. now rewrite Hlit. }
  destruct rest as [| c rest'] eqn:Hrest.
  { right. apply Hkeep. unfold strip_data_url_prefix. now rewrite Hlit. }
  destruct (is_word_char c) eqn:Hc.
  2: { right. apply Hkeep. unfold strip_data_url_prefix. now rewrite Hlit, Hc. }
  destruct (strip_literal ";base64," (skip_word (String c rest'))) as [payload |] eqn:Hb.
  2: { right. apply Hkeep. unfold strip_data_url_prefix. now rewrite Hlit, Hc, Hb. }
  left.
  destruct (skip_word_split (String c rest')) as (w & Hs & Hw).
  exists w, payload.
  apply strip_literal_Some in Hlit. apply strip_literal_Some in Hb.
  assert (Hne : w <> "").
  { intros ->. cbn in Hs, Hb. rewrite Hc in Hs, Hb.
    destruct (skip_word_split rest') as (w' & Hs' & _).
    rewrite <- Hs in Hs'. apply (f_equal String.length) in Hs'.
    rewrite length_append in Hs'. cbn in Hs'. lia. }
  assert (Himg : image = "data:image/" ++ w ++ ";base64," ++ payload).
  { rewrite Hlit. f_equal. rewrite Hs at 1. now rewrite Hb. }
  split; [exact Hne |]. split; [exact Hw |]. split; [exact Himg |].
  rewrite Himg. now apply strip_data_url_prefix_matches.
Qed.

End SaveImageMore.

(* ================================================================== *)
(** * A save, from the click to the file *)
(* ================================================================== *)

Module CaptureToSaveProps.
Import Strings.Byte.
Import WebcamCapture WebcamCaptureProps CaptureToSave.

Lemma strip_DataURL_text (png_base64 : Raster -> string) (u : DataURL) :
  SaveImage.strip_data_url_prefix (DataURL_text png_base64 u) = stored_text png_base64 u.
Proof.
  destruct u as [| r]; [reflexivity |].
  apply (SaveImageProps.strip_data_url_prefix_matches "png" (png_base64 r));
    [discriminate | reflexivity].
Qed.

(** From the click to the file.  On the mounted page with a photo under
    review and Save enabled, a click on Save puts exactly the captured image
    in flight.  When the route then handles that request and its write
    succeeds, one file is written, [<cwd>/public/captured-photos/<hex>.png],
    holding what the base64 decoder makes of the image text (the payload of a
    PNG data URL; the whole text [data:,] for the image of an empty canvas),
    and the component shows that file name and has nothing in flight.  When
    the write fails nothing is written, no name is shown, the photo is kept
    and Save is enabled again. *)
Theorem save_round_trip
    (png_base64 : Raster -> string) (Buffer_from_base64 : string -> list byte)
    (cwd : SaveImage.Path) (evs : list Event) (image : DataURL)
    (randomBytes : list byte) :
  phase (run evs) = Mounted ->
  capturedImage (st (run evs)) = Some image ->
  saveDisabled (st (run evs)) = false ->
  let clicked := step (run evs) ClickSave in
  let fileName := (SaveImage.toString_hex randomBytes ++ ".png")%string in
  let saved := serve png_base64 Buffer_from_base64 cwd randomBytes true clicked in
  let failed := serve png_base64 Buffer_from_base64 cwd randomBytes false clicked in
  inflight clicked = [image]
  /\ snd saved
     = [(cwd ++ ["public"; "captured-photos"; fileName]%string,
         Buffer_from_base64 (stored_text png_base64 image))]
  /\ savedFileName (st (fst saved)) = Some fileName
  /\ isSaving (st (fst saved)) = false
  /\ inflight (fst saved) = []
  /\ snd failed = []
  /\ savedFileName (st (fst failed)) = None
  /\ saveDisabled (st (fst failed)) = false
  /\ capturedImage (st (fst failed)) = Some image.
Proof.
  intros Hp Hc Hd clicked fileName saved failed.
  destruct (save_inv_run evs) as [Hlen _].
  unfold saveDisabled in Hd. apply orb_false_iff in Hd. destruct Hd as [Hs Hn].
  rewrite Hs in Hlen.
  destruct (inflight (run evs)) as [| x rest] eqn:Hi; [| discriminate].
  destruct (savedFileName (st (run evs))) eqn:Hname; [discriminate |].
  assert (Hclicked : clicked = savePhoto (st (run evs)) (run evs)).
  { subst clicked. cbn [step]. unfold is_mounted, reviewMode, saveDisabled.
    now rewrite Hp, Hc, Hs, Hname. }
  assert (Hin : inflight clicked = [image]).
  { rewrite Hclicked. unfold savePhoto. rewrite Hc. cbn. now rewrite Hi. }
  split; [exact Hin |].
  subst saved failed. unfold serve. rewrite Hin.
  unfold request_body, SaveImage.POST. rewrite strip_DataURL_text.
  cbn [fst snd SaveImage.written SaveImage.failed].
  unfold outcome_of. cbn [SaveImage.json SaveImage.response SaveImage.failed].
  cbn [step]. rewrite Hin.
  rewrite Hclicked. unfold savePhoto. rewrite Hc.
  unfold SaveImage.join. rewrite <- app_assoc.
  cbn. unfold saveDisabled. cbn. rewrite Hname, Hc.
  repeat split.
Qed.

Lemma save_round_trip_witness :
  inflight (step (run photo_taken) ClickSave)
  = [PngData {| r_width := 640; r_height := 480; r_pixels := Some 7 |}]
  /\ snd (serve sample_png SaveImage.decode_base64 ["srv"; "app"]%string
            SaveImage.sample_bytes true (step (run photo_taken) ClickSave))
     = [(["srv"; "app"]%string
         ++ ["public"; "captured-photos";
             (SaveImage.toString_hex SaveImage.sample_bytes ++ ".png")%string]%string,
         SaveImage.decode_base64
           (stored_text sample_png
              (PngData {| r_width := 640; r_height := 480; r_pixels := Some 7 |})))].
Proof.
  pose proof (save_round_trip sample_png SaveImage.decode_base64 ["srv"; "app"]%string
                photo_taken
                (PngData {| r_width := 640; r_height := 480; r_pixels := Some 7 |})
                SaveImage.sample_bytes
                ltac:(vm_compute; reflexivity) ltac:(vm_compute; reflexivity)
                ltac:(vm_compute; reflexivity)) as H.
  cbv zeta in H. destruct H as (H1 & H2 & _).
  split; [exact H1 | exact H2].
Defined.

End CaptureToSaveProps.

(* ================================================================== *)
(** * More about the face detection page *)
(* ================================================================== *)

Module FaceDetectionMore.
Import FaceDetection FaceDetectionProps FaceDetectionView.

(** Evaluation of a step on a state given field by field, and case analysis
    on what remains undetermined, innermost first. *)
Ltac run_handlers :=
  lazy beta iota zeta delta
    [step loadModels_fulfilled loadModels_rejected startVideo_fulfilled
     startVideo_rejected handleVideoPlay update detectionEffect detectionCleanup
     webcamEffect startVideo detectExpressions_resumed detectExpressions
     requestFrame loadModels cleanup videoRef canvasRef is_mounted notReady
     set_phase set_st set_video set_canvas set_media set_modelsPending
     set_pendingMedia set_effectRun set_animationFrameId set_awaiting set_frames
     set_nextFrame emit setModelsLoaded setStream setIsVideoPlaying
     phase st video canvas media modelsPending pendingMedia effectRun
     animationFrameId awaiting frames nextFrame trace
     modelsLoaded stream isVideoPlaying loop_run loop_snap
     context2d FaceDetection.width FaceDetection.height drawn
     videoWidth videoHeight srcObject
     mountedSys initialState freshVideo freshCanvas
     Bool.eqb negb orb andb].

Ltac break_inner :=
  match goal with
  | |- context [match ?x with _ => _ end] =>
      lazymatch x with
      | context [match _ with _ => _ end] => fail
      | _ => destruct x eqn:?
      end
  end.

Ltac run_cases :=
  run_handlers; repeat (break_inner; run_handlers; try discriminate).

Ltac closed_goal :=
  cbn in *;
  first
    [ assumption
    | reflexivity
    | discriminate
    | congruence
    | solve [repeat split; first [assumption | reflexivity | discriminate | congruence]] ].


(** ** One chain of detections *)

Lemma length_le_1_cases (A B : Type) (l1 : list A) (l2 : list B) :
  List.length l1 + List.length l2 <= 1 ->
  (l1 = [] /\ l2 = []) \/ (exists a, l1 = [a] /\ l2 = [])
  \/ (exists b, l1 = [] /\ l2 = [b]).
Proof.
  destruct l1 as [| a [| a' l1]], l2 as [| b [| b' l2]]; cbn; intros H;
    try lia; eauto.
Qed.

Lemma one_loop_initial : one_loop initialSys.
Proof. constructor; cbn; try lia; try tauto. Qed.

Ltac flag_contra :=
  match goal with
  | H : ?x = true, H' : negb (Bool.eqb ?x true) = true |- _ =>
      rewrite H in H'; discriminate
  end.

Ltac loop_goal :=
  cbn in *; rewrite ?andb_true_r in *;
  repeat match goal with
         | H : _ && _ = true |- _ => apply andb_true_iff in H; destruct H
         end;
  first
    [ lia
    | tauto
    | solve [intros ? [<- | []]; cbn; auto]
    | solve [intros ? ? [H | []]; inversion H; subst; cbn;
             rewrite ?Nat.eqb_refl; auto]
    | solve [intros [? | ?]; try congruence; auto]
    | solve [intros; split; congruence]
    | solve [intros; split; auto]
    | solve [auto] ].

Lemma one_loop_step (s : Sys) (e : Event) : one_loop s -> one_loop (step s e).
Proof.
  intros [K1 K2 K3 K4].
  destruct (length_le_1_cases _ _ _ _ K1) as [[Ha Hf] | [(a & Ha & Hf) | (b & Ha & Hf)]].
  - clear K1 K2 K3 K4.
    destruct e; cbn [step]; unfold_handlers; cbn; rewrite ?Ha, ?Hf; cbn;
      repeat (break_inner; cbn in *; try discriminate);
      constructor; cbn; rewrite ?Ha, ?Hf; loop_goal.
  - destruct K4 as [Hm Hv]; [left; congruence |].
    assert (Hrun : loop_run a = effectRun s) by (apply K2; rewrite Ha; now left).
    clear K1 K2 K3.
    destruct e; cbn [step]; unfold_handlers; cbn; rewrite ?Ha, ?Hf, ?Hm, ?Hv; cbn;
      repeat (break_inner; cbn in *; try discriminate);
      try flag_contra;
      constructor; cbn; rewrite ?Ha, ?Hf, ?Hm, ?Hv, ?Hrun; loop_goal.
  - destruct K4 as [Hm Hv]; [right; congruence |].
    destruct b as [id l].
    destruct (K3 id l) as [Hrun Hid]; [rewrite Hf; now left |].
    clear K1 K2 K3.
    destruct e; cbn [step]; unfold_handlers; cbn;
      rewrite ?Ha, ?Hf, ?Hm, ?Hv, ?Hid; cbn; rewrite ?Nat.eqb_refl; cbn;
      repeat (break_inner; cbn in *; try discriminate);
      try flag_contra;
      constructor; cbn; rewrite ?Ha, ?Hf, ?Hm, ?Hv, ?Hrun, ?Hid; loop_goal.
Qed.

Lemma one_loop_run (evs : list Event) : one_loop (run evs).
Proof.
  apply detection_run_invariant; [apply one_loop_initial | apply one_loop_step].
Qed.

(** ** One camera request, no track ever stopped *)

Lemma one_camera_initial : one_camera initialSys.
Proof. constructor; cbn; auto; try discriminate; tauto. Qed.

Lemma repeat_live_self (n : nat) :
  repeat live n = repeat live (List.length (repeat live n)).
Proof. now rewrite repeat_length. Qed.

Ltac camera_goal :=
  cbn in *; rewrite ?filter_app, ?length_app in *; cbn in *;
  first
    [ lia
    | discriminate
    | congruence
    | solve [auto]
    | solve [intros ? H; apply in_app_or in H; destruct H as [H | [<- | []]];
             [auto | apply repeat_live_self]]
    | solve [intros ? []] ].

Lemma one_camera_step (s : Sys) (e : Event) : one_camera s -> one_camera (step s e).
Proof.
  intros [C1 C2 C3 C4 C5].
  destruct (modelsLoaded (st s)) eqn:Hm.
  - specialize (C2 eq_refl).
    destruct e; cbn [step]; unfold_handlers; cbn; rewrite ?Hm, ?C2; cbn;
      repeat (break_match; cbn in *; try discriminate);
      constructor; cbn; rewrite ?Hm; camera_goal.
  - clear C2.
    destruct e; cbn [step]; unfold_handlers; cbn; rewrite ?Hm; cbn;
      repeat (break_match; cbn in *; try discriminate);
      constructor; cbn; rewrite ?Hm; camera_goal.
Qed.

Lemma one_camera_run (evs : list Event) : one_camera (run evs).
Proof.
  apply detection_run_invariant; [apply one_camera_initial | apply one_camera_step].
Qed.

(** ** What a suspended call can rely on *)

Lemma loop_ready_initial : loop_ready initialSys.
Proof. constructor; cbn; auto; tauto. Qed.

Ltac ready_goal :=
  cbn in *; rewrite ?andb_true_r in *;
  repeat match goal with
         | H : _ && _ = true |- _ => apply andb_true_iff in H; destruct H
         end;
  first
    [ assumption
    | discriminate
    | tauto
    | solve [intros ? [<- | []]; cbn; auto]
    | solve [intros ? [<- | [<- | []]]; cbn; auto]
    | solve [intros ? ? [H | []]; inversion H; subst; cbn; auto]
    | solve [intros ? ? H;
             match type of H with
             | In _ (if ?c then _ else _) => destruct c
             end; cbn in H;
             [destruct H as [H | []]; inversion H; subst; auto | contradiction]]
    | solve [intros; split; congruence]
    | solve [auto] ].

Lemma loop_ready_step (s : Sys) (e : Event) :
  one_loop s -> loop_ready s -> loop_ready (step s e).
Proof.
  intros [K1 _ K3 _] [R1 R2 R3 R4].
  destruct (length_le_1_cases _ _ _ _ K1) as [[Ha Hf] | [(a & Ha & Hf) | (b & Ha & Hf)]].
  - clear K1 K3 R2 R3 R4.
    destruct e; cbn [step]; unfold_handlers; cbn; rewrite ?Ha, ?Hf, ?R1; cbn;
      repeat (break_match; cbn in *; try discriminate);
      constructor; cbn; rewrite ?Ha, ?Hf, ?R1; ready_goal.
  - assert (Hsnap : isVideoPlaying (loop_snap a) = true)
      by (apply R2; rewrite Ha; now left).
    assert (Hph : phase s <> NotMounted)
      by (intros Hp; destruct (R4 Hp); congruence).
    clear K1 K3 R2 R3 R4.
    destruct e; cbn [step]; unfold_handlers; cbn; rewrite ?Ha, ?Hf, ?R1; cbn;
      repeat (break_match; cbn in *; try discriminate);
      try congruence;
      constructor; cbn; rewrite ?Ha, ?Hf, ?R1; ready_goal.
  - destruct b as [id l].
    assert (Hsnap : isVideoPlaying (loop_snap l) = true)
      by (apply (R3 id); rewrite Hf; now left).
    assert (Hph : phase s <> NotMounted)
      by (intros Hp; destruct (R4 Hp); congruence).
    clear K1 K3 R2 R3 R4.
    destruct e; cbn [step]; unfold_handlers; cbn; rewrite ?Ha, ?Hf, ?R1; cbn;
      repeat (break_match; cbn in *; try discriminate);
      try congruence;
      constructor; cbn; rewrite ?Ha, ?Hf, ?R1; ready_goal.
Qed.

Lemma loop_ready_run (evs : list Event) : loop_ready (run evs).
Proof.
  enough (one_loop (run evs) /\ loop_ready (run evs)) by tauto.
  apply detection_run_invariant.
  - split; [apply one_loop_initial | apply loop_ready_initial].
  - intros s e [H1 H2]. split; [now apply one_loop_step | now apply loop_ready_step].
Qed.

(** ** States from which nothing is detected any more *)

Lemma quiet_app (l1 l2 : list Action) : quiet l1 -> quiet l2 -> quiet (l1 ++ l2).
Proof. unfold quiet. intros H1 H2. rewrite forallb_app, H1, H2. reflexivity. Qed.

(** A set of states that no event leaves, and in which no event asks for the
    camera or calls a detection, is one in which no sequence of events does. *)
Lemma quiet_forever (D : Sys -> Prop) :
  (forall s e, D s ->
     D (step s e) /\ exists l, trace (step s e) = trace s ++ l /\ quiet l) ->
  forall evs s, D s ->
    D (run_from s evs) /\ exists l, trace (run_from s evs) = trace s ++ l /\ quiet l.
Proof.
  intros Hstep evs.
  induction evs as [| e evs IH] using rev_ind; intros s Hs.
  - split; [exact Hs |]. exists []. split; [now rewrite app_nil_r | reflexivity].
  - rewrite detection_run_snoc.
    destruct (IH s Hs) as [HD (l1 & E1 & Q1)].
    destruct (Hstep _ e HD) as [HD' (l2 & E2 & Q2)].
    split; [exact HD' |].
    exists (l1 ++ l2). split.
    + rewrite E2, E1. now rewrite app_assoc.
    + now apply quiet_app.
Qed.

Ltac quiet_goal :=
  first
    [ exists []; split; [now rewrite app_nil_r | reflexivity]
    | eexists; split; [rewrite <- ?app_assoc; reflexivity | reflexivity] ].


Lemma loop_over_step (s : Sys) (e : Event) :
  loop_over s ->
  loop_over (step s e) /\ exists l, trace (step s e) = trace s ++ l /\ quiet l.
Proof.
  unfold loop_over. intros (Hp & Ha & Hf & Hm & Hl & Hv).
  destruct s as [ph [ml str vp] v c m mp pm er ids aw fr nf tr]; cbn in *; subst.
  destruct ph; [congruence | |];
    (destruct e; run_cases; (split; [closed_goal | quiet_goal])).
Qed.

Lemma models_failed_step (s : Sys) (e : Event) :
  models_failed s ->
  models_failed (step s e) /\ exists l, trace (step s e) = trace s ++ l /\ quiet l.
Proof.
  unfold models_failed. intros (Hp & Ha & Hf & Hl & Hm).
  destruct s as [ph [ml str vp] v c m mp pm er ids aw fr nf tr]; cbn in *; subst.
  destruct ph; [congruence | |];
    (destruct e; run_cases; (split; [closed_goal | quiet_goal])).
Qed.

(** ** The detection page: what holds of every run *)

(** At every point of every run at most one call of [detectExpressions]
    is in progress: suspended at its [await], or scheduled as an animation
    frame callback. *)
Theorem one_detection_at_a_time (evs : list Event) :
  List.length (awaiting (run evs)) + List.length (frames (run evs)) <= 1.
Proof. apply one_loop_run. Qed.

(** Unmounting the mounted component leaves no animation frame callback
    scheduled: the one that was scheduled is cancelled by its id. *)
Theorem unmount_cancels_scheduled_frame (evs : list Event) :
  phase (run evs) = Mounted ->
  let s' := step (run evs) Unmount in
  frames s' = []
  /\ forall id l, In (id, l) (frames (run evs)) ->
       In (CancelAnimationFrame id) (trace s').
Proof.
  intros Hp.
  destruct (one_loop_run evs) as [K1 _ K3 _].
  revert Hp K1 K3. generalize (run evs). intros s Hp K1 K3.
  destruct (length_le_1_cases _ _ _ _ K1) as [[Ha Hf] | [(a & Ha & Hf) | (b & Ha & Hf)]].
  - cbn [step]; unfold_handlers; rewrite Hp; cbn. rewrite Hf.
    destruct (frameIdOf _ _); cbn; rewrite ?Hf; cbn; split; auto; intros ? ? [].
  - cbn [step]; unfold_handlers; rewrite Hp; cbn. rewrite Hf.
    destruct (frameIdOf _ _); cbn; rewrite ?Hf; cbn; split; auto; intros ? ? [].
  - destruct b as [id l].
    destruct (K3 id l) as [_ Hid]; [rewrite Hf; now left |].
    cbn [step]; unfold_handlers; rewrite Hp; cbn. rewrite Hid, Hf. cbn.
    rewrite Nat.eqb_refl. cbn. split; [reflexivity |].
    intros id' l' [H | []]. inversion H; subst.
    apply in_or_app. right. now left.
Qed.

Lemma unmount_cancels_scheduled_frame_witness :
  frames (run frame_scheduled) <> []
  /\ frames (step (run frame_scheduled) Unmount) = [].
Proof.
  split; [vm_compute; discriminate |].
  apply (proj1 (unmount_cancels_scheduled_frame frame_scheduled
                  ltac:(vm_compute; reflexivity))).
Defined.

(** The detection page never stops a camera track: at every point of
    every run, unmounts included, every track of every stream that was granted
    is still live. *)
Theorem detection_page_never_stops_a_track (evs : list Event) :
  forall ts, In ts (media (run evs)) -> forallb is_live ts = true.
Proof.
  intros ts Hin.
  rewrite (camera_live _ (one_camera_run evs) ts Hin).
  generalize (List.length ts). intros n.
  induction n as [| n IH]; [reflexivity | exact IH].
Qed.

Lemma detection_page_never_stops_a_track_witness :
  In [live] (media (run (detection_awaited ++ [Unmount])))
  /\ forallb is_live [live] = true.
Proof.
  split; [vm_compute; now left |].
  apply (detection_page_never_stops_a_track (detection_awaited ++ [Unmount]) [live]).
  vm_compute. now left.
Defined.

(** The detection page asks for the camera at most once in a run, and not
    at all while the models are not loaded; so at most one stream is ever
    pending or granted. *)
Theorem camera_requested_at_most_once (evs : list Event) :
  count is_GetUserMedia (trace (run evs)) <= 1
  /\ (modelsLoaded (st (run evs)) = false ->
      count is_GetUserMedia (trace (run evs)) = 0)
  /\ pendingMedia (run evs) + List.length (media (run evs)) <= 1.
Proof.
  destruct (one_camera_run evs) as [C1 _ _ C5 _].
  unfold count. destruct (modelsLoaded (st (run evs))); cbn in C1.
  - split; [lia | split; [discriminate | lia]].
  - split; [lia | split; [intros _ |]; lia].
Qed.



(** A detection whose promise rejects, or whose face has an empty table
    of expressions, ends the loop for good: nothing is suspended or scheduled
    after it, and no later event calls a detection again. *)
Theorem failed_detection_ends_the_loop (evs : list Event) (e : Event)
  (later : list Event) :
  awaiting (run evs) <> [] ->
  ends_loop e ->
  awaiting (step (run evs) e) = []
  /\ frames (step (run evs) e) = []
  /\ exists l, trace (run_from (step (run evs) e) later)
               = trace (step (run evs) e) ++ l
               /\ quiet l.
Proof.
  intros Hne He.
  assert (Hover : loop_over (step (run evs) e)).
  { destruct (one_loop_run evs) as [K1 _ _ K4].
    destruct (one_camera_run evs) as [_ C2 _ _ _].
    destruct (loop_ready_run evs) as [R1 _ _ R4].
    revert Hne K1 K4 C2 R1 R4. generalize (run evs). intros s Hne K1 K4 C2 R1 R4.
    destruct (length_le_1_cases _ _ _ _ K1)
      as [[Ha Hf] | [(a & Ha & Hf) | (b & Ha & Hf)]]; try congruence.
    destruct K4 as [Hm Hv]; [now left |].
    specialize (C2 Hm).
    assert (Hph : phase s <> NotMounted)
      by (intros Hp; destruct (R4 Hp); congruence).
    clear K1 R4 Hne.
    destruct s as [ph [ml str vp] v c m mp pm er ids aw fr nf tr]; cbn in *; subst.
    destruct c as [w h ctx dr]; cbn in *; subst.
    destruct v as [vw vh src].
    destruct e as [| | | | | | | | [d |] | |]; cbn in He; try contradiction.
    - destruct d as [box ex]; cbn in He; subst.
      unfold loop_over. run_handlers. unfold dominantExpression.
      cbn [expressions]. run_cases; cbn; repeat split; auto.
    - unfold loop_over. run_handlers. repeat split; auto. }
  destruct (quiet_forever loop_over loop_over_step later _ Hover) as [_ Hq].
  destruct Hover as (_ & Ha & Hf & _).
  auto.
Qed.

Lemma failed_detection_ends_the_loop_witness :
  awaiting (run detection_awaited) <> []
  /\ awaiting (step (run detection_awaited) DetectionFailed) = []
  /\ frames (step (run detection_awaited) DetectionFailed) = []
  /\ exists l, trace (run_from (step (run detection_awaited) DetectionFailed)
                        [AnimationFrame; VideoPlay])
               = trace (step (run detection_awaited) DetectionFailed) ++ l
               /\ quiet l.
Proof.
  split; [vm_compute; discriminate |].
  apply (failed_detection_ends_the_loop detection_awaited DetectionFailed
           [AnimationFrame; VideoPlay]).
  - vm_compute. discriminate.
  - exact I.
Defined.

Lemma quiet_trace (tr : list Action) :
  List.length (filter is_GetUserMedia tr) = 0 ->
  ~ In DetectSingleFace tr ->
  quiet tr.
Proof.
  unfold quiet.
  induction tr as [| a tr IH]; [reflexivity |].
  intros Hc Hn.
  destruct a; cbn in *; try discriminate;
    try (apply IH; [assumption | tauto]).
  exfalso. apply Hn. now left.
Qed.

(** When loading the models fails the error is logged and that is the end
    of it: [modelsLoaded] stays false whatever happens later, so the camera is
    never asked for and no detection is ever called. *)
Theorem model_failure_is_final (evs later : list Event) :
  modelsPending (run evs) = true ->
  In (ConsoleError "Error loading models:") (trace (step (run evs) ModelsFailed))
  /\ modelsLoaded (st (run_from (step (run evs) ModelsFailed) later)) = false
  /\ quiet (trace (run_from (step (run evs) ModelsFailed) later)).
Proof.
  intros Hpend.
  assert (Hl : modelsLoaded (st (run evs)) = false).
  { destruct (modelsLoaded (st (run evs))) eqn:E; [| reflexivity].
    rewrite (camera_pending _ (one_camera_run evs) E) in Hpend. discriminate. }
  assert (Hq : quiet (trace (run evs))).
  { apply quiet_trace.
    - pose proof (camera_count _ (one_camera_run evs)) as C. rewrite Hl in C.
      cbn in C. lia.
    - intros Hin.
      destruct (inv_detect _ (loop_inv_run evs)) as [E _]; [now left |].
      congruence. }
  assert (Hfail : models_failed (step (run evs) ModelsFailed)
                  /\ trace (step (run evs) ModelsFailed)
                     = trace (run evs) ++ [ConsoleError "Error loading models:"]).
  { pose proof (inv_tasks _ (loop_inv_run evs)) as T.
    pose proof (camera_phase _ (one_camera_run evs)) as P.
    revert Hpend Hl T P. generalize (run evs). intros s Hpend Hl T P.
    assert (Hph : phase s <> NotMounted)
      by (intros Hp; rewrite (P Hp) in Hpend; discriminate).
    assert (Ha : awaiting s = []).
    { destruct (awaiting s) eqn:E; [reflexivity |].
      destruct T as [T _]; [left; discriminate | congruence]. }
    assert (Hf : frames s = []).
    { destruct (frames s) eqn:E; [reflexivity |].
      destruct T as [T _]; [right; discriminate | congruence]. }
    clear T P.
    destruct s as [ph [ml str vp] v c m mp pm er ids aw fr nf tr]; cbn in *; subst.
    unfold models_failed. run_handlers. repeat split; auto. }
  destruct Hfail as [Hfail Htr].
  destruct (quiet_forever models_failed models_failed_step later _ Hfail)
    as [(_ & _ & _ & Hl' & _) (l & El & Ql)].
  split; [| split].
  - rewrite Htr. apply in_or_app. right. now left.
  - exact Hl'.
  - rewrite El, Htr. apply quiet_app; [apply quiet_app |]; auto. reflexivity.
Qed.

Lemma model_failure_is_final_witness :
  In (ConsoleError "Error loading models:") (trace (step (run [Mount]) ModelsFailed))
  /\ modelsLoaded (st (run_from (step (run [Mount]) ModelsFailed)
                         [VideoPlay; ModelsLoaded; AnimationFrame])) = false
  /\ quiet (trace (run_from (step (run [Mount]) ModelsFailed)
                     [VideoPlay; ModelsLoaded; AnimationFrame])).
Proof.
  apply (model_failure_is_final [Mount] [VideoPlay; ModelsLoaded; AnimationFrame]).
  vm_compute. reflexivity.
Defined.

(** ** The loop turns *)

Lemma count_snoc (f : Action -> bool) (tr : list Action) (a : Action) :
  count f (tr ++ [a]) = count f tr + (if f a then 1 else 0).
Proof.
  unfold count. rewrite filter_app, length_app. cbn. now destruct (f a).
Qed.

Lemma cycle_step (a : Loop) (s : Sys) (d : option Detection) :
  cycling a s ->
  keeps_loop (video s) d ->
  cycling a (step (step s (DetectionSettled d)) AnimationFrame)
  /\ video (step (step s (DetectionSettled d)) AnimationFrame) = video s
  /\ count is_DetectSingleFace
       (trace (step (step s (DetectionSettled d)) AnimationFrame))
     = S (count is_DetectSingleFace (trace s))
  /\ count is_RequestAnimationFrame
       (trace (step (step s (DetectionSettled d)) AnimationFrame))
     = S (count is_RequestAnimationFrame (trace s)).
Proof.
  unfold cycling. intros (Hp & Ha & Hf & Hs & Hc) Hd.
  destruct s as [ph [ml str vp] v c m mp pm er ids aw fr nf tr]; cbn in *; subst.
  destruct c as [w h ctx dr]; cbn in *; subst.
  destruct v as [vw vh src]; cbn in Hd.
  destruct a as [r [ml' str' vp']]; cbn in *; subst.
  destruct d as [[box [| x ex]] |]; cbn in Hd.
  - destruct Hd as (_ & _ & Hd). congruence.
  - destruct Hd as (Hw & Hh & _).
    apply N.eqb_neq in Hw. apply N.eqb_neq in Hh.
    run_handlers. rewrite Hw, Hh.
    run_handlers. unfold dominantExpression. cbn [expressions app]. run_handlers.
    rewrite !count_snoc. unfold count. cbn. repeat split; lia.
  - run_handlers. cbn [app]. run_handlers.
    rewrite !count_snoc. unfold count. cbn. repeat split; lia.
Qed.

Lemma cycles_run (a : Loop) (ds : list (option Detection)) :
  forall s : Sys,
    cycling a s ->
    Forall (keeps_loop (video s)) ds ->
    awaiting (run_from s (cycles ds)) = [a]
    /\ frames (run_from s (cycles ds)) = []
    /\ count is_DetectSingleFace (trace (run_from s (cycles ds)))
       = List.length ds + count is_DetectSingleFace (trace s)
    /\ count is_RequestAnimationFrame (trace (run_from s (cycles ds)))
       = List.length ds + count is_RequestAnimationFrame (trace s).
Proof.
  induction ds as [| d ds IH]; intros s Hcyc Hds.
  - cbn. destruct Hcyc as (_ & Ha & Hf & _). auto.
  - inversion Hds as [| d' ds' Hd Hrest]; subst.
    change (run_from s (cycles (d :: ds)))
      with (run_from (step (step s (DetectionSettled d)) AnimationFrame) (cycles ds)).
    destruct (cycle_step a s d Hcyc Hd) as (Hcyc' & Hv & E1 & E2).
    rewrite <- Hv in Hrest.
    destruct (IH _ Hcyc' Hrest) as (I1 & I2 & I3 & I4).
    rewrite I1, I2, I3, I4, E1, E2. cbn [List.length].
    repeat split; lia.
Qed.

(** Once a detection is awaited on the mounted page the loop keeps turning:
    for each result that is no face, or, the video having a size, a face with
    expressions, the settled call requests one animation frame and that frame
    calls one detection, which is then the one awaited. *)
Theorem detection_loop_turns (evs : list Event) (ds : list (option Detection)) :
  phase (run evs) = Mounted ->
  awaiting (run evs) <> [] ->
  Forall (keeps_loop (video (run evs))) ds ->
  awaiting (run_from (run evs) (cycles ds)) = awaiting (run evs)
  /\ frames (run_from (run evs) (cycles ds)) = []
  /\ count is_DetectSingleFace (trace (run_from (run evs) (cycles ds)))
     = List.length ds + count is_DetectSingleFace (trace (run evs))
  /\ count is_RequestAnimationFrame (trace (run_from (run evs) (cycles ds)))
     = List.length ds + count is_RequestAnimationFrame (trace (run evs)).
Proof.
  intros Hp Hne Hds.
  assert (Hcyc : exists a, cycling a (run evs)).
  { destruct (one_loop_run evs) as [K1 _ _ _].
    destruct (loop_ready_run evs) as [R1 R2 _ _].
    destruct (length_le_1_cases _ _ _ _ K1)
      as [[Ha Hf] | [(a & Ha & Hf) | (b & Ha & Hf)]]; try congruence.
    exists a. unfold cycling. repeat split; auto.
    apply R2. rewrite Ha. now left. }
  destruct Hcyc as [a Hcyc].
  destruct (cycles_run a ds (run evs) Hcyc Hds) as (I1 & I2 & I3 & I4).
  destruct Hcyc as (_ & Ha & _).
  rewrite I1, I2, I3, I4, Ha. auto.
Qed.

(** Three turns on a video of 640 x 480: no face, a face, no face. *)
Lemma detection_loop_turns_witness :
  awaiting (run_from (run detection_awaited_sized)
              (cycles [None; Some sample_face; None]))
  = awaiting (run detection_awaited_sized)
  /\ frames (run_from (run detection_awaited_sized)
               (cycles [None; Some sample_face; None]))
     = []
  /\ count is_DetectSingleFace
       (trace (run_from (run detection_awaited_sized)
                 (cycles [None; Some sample_face; None])))
     = List.length [None; Some sample_face; None]
       + count is_DetectSingleFace (trace (run detection_awaited_sized))
  /\ count is_RequestAnimationFrame
       (trace (run_from (run detection_awaited_sized)
                 (cycles [None; Some sample_face; None])))
     = List.length [None; Some sample_face; None]
       + count is_RequestAnimationFrame (trace (run detection_awaited_sized)).
Proof.
  apply (detection_loop_turns detection_awaited_sized [None; Some sample_face; None]).
  - vm_compute. reflexivity.
  - vm_compute. discriminate.
  - repeat constructor; vm_compute; discriminate.
Defined.

End FaceDetectionMore.

(* ================================================================== *)
(** * Properties of the audio player *)
(* ================================================================== *)

Module AudioPlayerProps.
Import AudioPlayer.

Lemma audio_run_snoc (s : Sys) (evs : list Event) (e : Event) :
  run_from s (evs ++ [e]) = step (run_from s evs) e.
Proof. unfold run_from. now rewrite fold_left_app. Qed.

Lemma playing_inv (evs : list Event) :
  (paused (audio (run evs)) = false ->
   phase (run evs) = Mounted /\ isPlaying (run evs) = true
   /\ error (audio (run evs)) = false)
  /\ (forallb (fun e => negb (is_Ended e || is_SourceFailed e)) evs = true ->
      error (audio (run evs)) = false
      /\ (phase (run evs) <> Unmounted ->
          isPlaying (run evs) = negb (paused (audio (run evs))))).
Proof.
  induction evs as [| e evs IH] using rev_ind.
  - split; [discriminate | intros _; split; reflexivity].
  - unfold run in *. rewrite audio_run_snoc, forallb_app.
    destruct IH as [IH1 IH2].
    destruct (run_from initialSys evs) as [ph ip [pa er] cs]; cbn in *.
    split.
    + destruct e, ph, ip, pa, er; cbn in *; intros H; try discriminate;
        try (destruct (IH1 eq_refl) as (? & ? & ?); repeat split; congruence);
        repeat split; congruence.
    + intros H. apply andb_true_iff in H. destruct H as [H He].
      destruct (IH2 H) as [Her Hip]. subst er.
      destruct e; cbn in He; try discriminate;
        destruct ph, ip, pa; cbn in *; split; intros; try reflexivity;
        try congruence;
        try (destruct (IH1 eq_refl) as (? & ? & ?); congruence);
        try (symmetry; apply Hip; discriminate);
        try (apply Hip; discriminate).
Qed.


(** A source that fails to load before the first click: the label reads Pause
    and nothing plays. *)
Lemma failed_source_is_labelled_pause :
  buttonText (run [Mount; SourceFailed; ClickToggle]) = pauseText
  /\ paused (audio (run [Mount; SourceFailed; ClickToggle])) = true
  /\ calls (run [Mount; SourceFailed; ClickToggle]) = [Play].
Proof. repeat split. Qed.

(** When the track reaches its end while it plays, the button goes on
    reading Pause although nothing plays: the next click calls [pause()] and
    only turns the label to Play, and it takes a second click to call
    [play()]. *)
Theorem ended_track_needs_two_clicks (evs : list Event) :
  paused (audio (run evs)) = false ->
  buttonText (step (run evs) Ended) = pauseText
  /\ paused (audio (step (run evs) Ended)) = true
  /\ calls (step (step (run evs) Ended) ClickToggle) = calls (run evs) ++ [Pause]
  /\ paused (audio (step (step (run evs) Ended) ClickToggle)) = true
  /\ buttonText (step (step (run evs) Ended) ClickToggle) = playText
  /\ calls (step (step (step (run evs) Ended) ClickToggle) ClickToggle)
     = calls (run evs) ++ [Pause; Play]
  /\ paused (audio (step (step (step (run evs) Ended) ClickToggle) ClickToggle))
     = false.
Proof.
  intros Hp.
  destruct (proj1 (playing_inv evs) Hp) as (Hm & Hi & He).
  revert Hp Hm Hi He. generalize (run evs). intros [ph ip [pa er] cs]. cbn.
  intros -> -> -> ->. cbn. rewrite <- app_assoc. repeat split.
Qed.

Lemma ended_track_needs_two_clicks_witness :
  buttonText (step (run [Mount; ClickToggle]) Ended) = pauseText
  /\ paused (audio (step (run [Mount; ClickToggle]) Ended)) = true
  /\ calls (step (step (run [Mount; ClickToggle]) Ended) ClickToggle)
     = calls (run [Mount; ClickToggle]) ++ [Pause]
  /\ paused (audio (step (step (run [Mount; ClickToggle]) Ended) ClickToggle)) = true
  /\ buttonText (step (step (run [Mount; ClickToggle]) Ended) ClickToggle) = playText
  /\ calls (step (step (step (run [Mount; ClickToggle]) Ended) ClickToggle) ClickToggle)
     = calls (run [Mount; ClickToggle]) ++ [Pause; Play]
  /\ paused (audio (step (step (step (run [Mount; ClickToggle]) Ended) ClickToggle)
                      ClickToggle))
     = false.
Proof.
  apply (ended_track_needs_two_clicks [Mount; ClickToggle]). reflexivity.
Defined.

End AudioPlayerProps.

(* ================================================================== *)
(** * Properties of the first webcam component *)
(* ================================================================== *)

Module SimpleWebcamProps.
Import SimpleWebcam.

Lemma simple_run_snoc (r : bool) (s : Sys) (evs : list Event) (e : Event) :
  run_from r s (evs ++ [e]) = step r (run_from r s evs) e.
Proof. unfold run_from. now rewrite fold_left_app. Qed.

Lemma bound_inv_step (r : bool) (s : Sys) (e : Event) :
  bound_inv s -> bound_inv (step r s e).
Proof.
  unfold bound_inv.
  destruct s as [ph [src] m pm out]; cbn.
  destruct ph; cbn.
  - intros H. inversion H; subst. destruct e; cbn; auto.
  - intros [(Hm & Hs & Hp) | (tracks & Hm & Hs & Hp)]; subst.
    + destruct e as [| | tracks |]; cbn; auto.
      * unfold cleanup. cbn. destruct r; cbn; lia.
      * destruct pm as [| [| pm]]; cbn; try lia; auto.
        right. exists tracks. auto.
      * destruct pm as [| [| pm]]; cbn; try lia; auto.
    + destruct e; cbn; eauto.
      unfold cleanup. cbn. destruct r; cbn; lia.
  - intros H. destruct e; cbn; auto.
    + destruct pm; cbn; [auto |]. rewrite length_app. cbn in *. lia.
    + destruct pm; cbn in *; [auto | lia].
Qed.

Lemma bound_inv_run (r : bool) (evs : list Event) : bound_inv (run r evs).
Proof.
  induction evs as [| e evs IH] using rev_ind.
  - reflexivity.
  - unfold run in *. rewrite simple_run_snoc. now apply bound_inv_step.
Qed.

Lemma stopped_stream_inactive (ts : list ReadyState) : active (stop_all ts) = false.
Proof. induction ts as [| t ts IH]; [reflexivity | exact IH]. Qed.

(** What the unmount of the first webcam component does to the camera
    depends on one thing only.  If [videoRef.current] still points at the
    video element when the cleanup runs, no stream is active afterwards; if
    React has already detached the ref, the cleanup stops nothing and the
    streams are as active as before. *)
Theorem simple_unmount_releases_iff_ref_attached (ref_at_cleanup : bool)
    (evs : list Event) :
  phase (run ref_at_cleanup evs) = Mounted ->
  active_streams (media (step ref_at_cleanup (run ref_at_cleanup evs) Unmount))
  = if ref_at_cleanup then 0 else active_streams (media (run ref_at_cleanup evs)).
Proof.
  intros Hp.
  pose proof (bound_inv_run ref_at_cleanup evs) as H. unfold bound_inv in H.
  rewrite Hp in H. revert Hp H. generalize (run ref_at_cleanup evs).
  intros [ph [src] m pm out]. cbn. intros -> H. unfold cleanup. cbn.
  destruct H as [(Hm & Hs & _) | (tracks & Hm & Hs & _)]; subst.
  - now destruct ref_at_cleanup.
  - destruct ref_at_cleanup; cbn; [| reflexivity].
    unfold active_streams. cbn. now rewrite stopped_stream_inactive.
Qed.

Lemma simple_unmount_releases_iff_ref_attached_witness :
  active_streams (media (step true (run true [Mount; StreamGranted 2]) Unmount)) = 0
  /\ active_streams (media (step false (run false [Mount; StreamGranted 2]) Unmount))
     = active_streams (media (run false [Mount; StreamGranted 2])).
Proof.
  split.
  - apply (simple_unmount_releases_iff_ref_attached true [Mount; StreamGranted 2]).
    reflexivity.
  - apply (simple_unmount_releases_iff_ref_attached false [Mount; StreamGranted 2]).
    reflexivity.
Defined.

(** A camera that is granted after the first webcam component was
    unmounted is left running: the stream is bound to no element, and no later
    event stops its tracks, whatever React does with the ref. *)
Theorem simple_late_grant_is_left_running (ref_at_cleanup : bool)
    (evs : list Event) (tracks : nat) (later : list Event) :
  phase (run ref_at_cleanup evs) = Unmounted ->
  pendingMedia (run ref_at_cleanup evs) <> 0 ->
  media (run_from ref_at_cleanup
           (step ref_at_cleanup (run ref_at_cleanup evs) (StreamGranted tracks)) later)
  = [repeat live tracks]
  /\ srcObject (video (run_from ref_at_cleanup
                         (step ref_at_cleanup (run ref_at_cleanup evs)
                            (StreamGranted tracks)) later))
     = srcObject (video (run ref_at_cleanup evs)).
Proof.
  intros Hp Hn.
  pose proof (bound_inv_run ref_at_cleanup evs) as H. unfold bound_inv in H.
  rewrite Hp in H. revert Hp Hn H. generalize (run ref_at_cleanup evs).
  intros [ph [src] m pm out]. cbn. intros -> Hn H.
  destruct pm as [| [| pm]]; [contradiction | | cbn in H; lia].
  destruct m as [| ts m]; [| cbn in H; lia].
  cbn. clear H Hn.
  generalize out. induction later as [| e later IH]; intros o; [auto |].
  destruct e; cbn; apply IH.
Qed.

Lemma simple_late_grant_is_left_running_witness :
  media (run_from true (step true (run true [Mount; Unmount]) (StreamGranted 2))
           [Mount; Unmount; StreamDenied])
  = [repeat live 2]
  /\ srcObject (video (run_from true
                         (step true (run true [Mount; Unmount]) (StreamGranted 2))
                         [Mount; Unmount; StreamDenied]))
     = srcObject (video (run true [Mount; Unmount])).
Proof.
  apply (simple_late_grant_is_left_running true [Mount; Unmount] 2
           [Mount; Unmount; StreamDenied]).
  - reflexivity.
  - discriminate.
Defined.

End SimpleWebcamProps.
